(** * FF_ShellyMilight: the reconciliation engine of src/FF_ShellyMilight.cpp

    A shallow embedding of the button / relay / MQTT state machine: the
    globals of the sketch become one record, every function that touches
    them becomes a state transformer, and the calls into the Arduino core
    and the MQTT client (digitalWrite, delay, publish, ...) are appended to
    a chronological list of effects kept in the same record.

    TRACE(...) is a logging macro; it reads globals and never writes them,
    so it is left out of the model. *)

From Stdlib Require Import ZArith List Bool String Ascii Lia.
Import ListNotations.
Local Open Scope Z_scope.

(** ** Arduino-side vocabulary *)

(** Digital pin levels of the Arduino core. *)
Inductive level : Type := LOW | HIGH.

Definition level_eqb (a b : level) : bool :=
  match a, b with
  | LOW, LOW | HIGH, HIGH => true
  | _, _ => false
  end.

(** Calls that leave the sketch, in the order they are made. *)
Inductive event : Type :=
| DigitalWrite (pin : Z) (value : level)   (* digitalWrite(pin, value) *)
| Delay (ms : Z)                           (* delay(ms) *)
| Connect                                  (* mqttClient.connect(...) *)
| Publish (topic payload : string)         (* mqttClient.publish(topic, payload) *)
| Subscribe (topic : string).              (* mqttClient.subscribe(topic) *)

(** ** Build-time configuration

    FF_Shelly.h, which defines these macros, is not part of the sources at
    hand: each macro the engine uses is a field here.  A macro that is only
    tested with #ifdef is a boolean or an option. *)

Record shadow_led : Type := {
  SHADOW_LED_PIN : Z;
  SHADOW_LED_ON : level;
  SHADOW_LED_OFF : level
}.

Record config : Type := {
  RELAY_PIN : Z;
  RELAY_ON : level;
  RELAY_OFF : level;
  SHADOW_LED : option shadow_led;       (* #ifdef SHADOW_LED_PIN *)
  BUTTON_HIGH_TO_LOW : bool;            (* #ifdef BUTTON_HIGH_TO_LOW *)
  BUTTON_LOW_TO_HIGH : bool;            (* #ifdef BUTTON_LOW_TO_HIGH *)
  COMMAND_TIMEOUT : Z;                  (* milliseconds; 0 <= it < 2^32 *)
  MQTT_MAX_PACKET_SIZE : nat;           (* sizeof(message) in mqttCallback *)
  MQTT_COMMAND : string;
  BULB_ON : string;
  BULB_OFF : string;
  STATE_ON : string;                    (* characters of the literal, before its NUL *)
  STATE_OFF : string;
  MQTT_STATE : option string;           (* #ifdef MQTT_STATE *)
  MQTT_UPDATE : option string;          (* #ifdef MQTT_UPDATE *)
  MQTT_LWT : string;
  MQTT_WILL_UP_MSG : string
}.

(** ** Globals of the sketch and the world around it *)

(** Modelled from the spec: the declarations of the globals (types and
    initial values) are in FF_Shelly.h, which is missing.  The four
    statistics are "monotonically increasing counts", taken here as
    unbounded integers; the two timestamps hold values of millis(), an
    unsigned long of 32 bits on the ESP8266. *)
Record state : Type := mkState {
  bulbOn : bool;                 (* internal (desired) bulb state *)
  relayOn : bool;                (* recorded relay state *)
  mqttCommandFailed : bool;      (* last command timed out: bypass mode *)
  mqttAvailable : bool;
  lastMqttCommandSent : Z;       (* 0: no command pending *)
  lastMqttConnectAttempt : Z;
  syncLost : Z;
  pushLost : Z;
  pushCount : Z;
  mqttLost : Z;
  clock : Z;                     (* what millis() returns now *)
  effects : list event           (* oldest first *)
}.

Definition set_bulbOn (v : bool) (s : state) : state :=
  mkState v (relayOn s) (mqttCommandFailed s) (mqttAvailable s)
    (lastMqttCommandSent s) (lastMqttConnectAttempt s)
    (syncLost s) (pushLost s) (pushCount s) (mqttLost s) (clock s) (effects s).

Definition set_relayOn (v : bool) (s : state) : state :=
  mkState (bulbOn s) v (mqttCommandFailed s) (mqttAvailable s)
    (lastMqttCommandSent s) (lastMqttConnectAttempt s)
    (syncLost s) (pushLost s) (pushCount s) (mqttLost s) (clock s) (effects s).

Definition set_mqttCommandFailed (v : bool) (s : state) : state :=
  mkState (bulbOn s) (relayOn s) v (mqttAvailable s)
    (lastMqttCommandSent s) (lastMqttConnectAttempt s)
    (syncLost s) (pushLost s) (pushCount s) (mqttLost s) (clock s) (effects s).

Definition set_mqttAvailable (v : bool) (s : state) : state :=
  mkState (bulbOn s) (relayOn s) (mqttCommandFailed s) v
    (lastMqttCommandSent s) (lastMqttConnectAttempt s)
    (syncLost s) (pushLost s) (pushCount s) (mqttLost s) (clock s) (effects s).

Definition set_lastMqttCommandSent (v : Z) (s : state) : state :=
  mkState (bulbOn s) (relayOn s) (mqttCommandFailed s) (mqttAvailable s)
    v (lastMqttConnectAttempt s)
    (syncLost s) (pushLost s) (pushCount s) (mqttLost s) (clock s) (effects s).

Definition set_lastMqttConnectAttempt (v : Z) (s : state) : state :=
  mkState (bulbOn s) (relayOn s) (mqttCommandFailed s) (mqttAvailable s)
    (lastMqttCommandSent s) v
    (syncLost s) (pushLost s) (pushCount s) (mqttLost s) (clock s) (effects s).

Definition set_syncLost (v : Z) (s : state) : state :=
  mkState (bulbOn s) (relayOn s) (mqttCommandFailed s) (mqttAvailable s)
    (lastMqttCommandSent s) (lastMqttConnectAttempt s)
    v (pushLost s) (pushCount s) (mqttLost s) (clock s) (effects s).

Definition set_pushLost (v : Z) (s : state) : state :=
  mkState (bulbOn s) (relayOn s) (mqttCommandFailed s) (mqttAvailable s)
    (lastMqttCommandSent s) (lastMqttConnectAttempt s)
    (syncLost s) v (pushCount s) (mqttLost s) (clock s) (effects s).

Definition set_pushCount (v : Z) (s : state) : state :=
  mkState (bulbOn s) (relayOn s) (mqttCommandFailed s) (mqttAvailable s)
    (lastMqttCommandSent s) (lastMqttConnectAttempt s)
    (syncLost s) (pushLost s) v (mqttLost s) (clock s) (effects s).

Definition set_mqttLost (v : Z) (s : state) : state :=
  mkState (bulbOn s) (relayOn s) (mqttCommandFailed s) (mqttAvailable s)
    (lastMqttCommandSent s) (lastMqttConnectAttempt s)
    (syncLost s) (pushLost s) (pushCount s) v (clock s) (effects s).

Definition set_clock (v : Z) (s : state) : state :=
  mkState (bulbOn s) (relayOn s) (mqttCommandFailed s) (mqttAvailable s)
    (lastMqttCommandSent s) (lastMqttConnectAttempt s)
    (syncLost s) (pushLost s) (pushCount s) (mqttLost s) v (effects s).

Definition emit (e : event) (s : state) : state :=
  mkState (bulbOn s) (relayOn s) (mqttCommandFailed s) (mqttAvailable s)
    (lastMqttCommandSent s) (lastMqttConnectAttempt s)
    (syncLost s) (pushLost s) (pushCount s) (mqttLost s) (clock s)
    (effects s ++ [e]).

(** Arithmetic on unsigned long wraps modulo 2^32. *)
Definition u32 (z : Z) : Z := z mod 2 ^ 32.

Definition millis (s : state) : Z := clock s.

(** Time passing outside the sketch's own code. *)
Definition elapse (dt : Z) (s : state) : state := set_clock (u32 (clock s + dt)) s.

(** delay(ms) blocks for ms milliseconds. *)
Definition delay (ms : Z) (s : state) : state := elapse ms (emit (Delay ms) s).

Definition digitalWrite (pin : Z) (value : level) (s : state) : state :=
  emit (DigitalWrite pin value) s.

(** ** C strings and the local message buffer *)

(** A cell of an automatic char array: None until it has been written. *)
Definition char_array : Type := list (option ascii).

Definition uninitialised (size : nat) : char_array := repeat None size.

(** memcpy(dst, src, n): None when it would run outside either array. *)
Definition memcpy (dst : char_array) (src : list ascii) (n : nat) : option char_array :=
  if ((n <=? List.length dst) && (n <=? List.length src))%nat
  then Some (map Some (firstn n src) ++ skipn n dst)
  else None.

(** a[i] = c: None when i is not an index of the array. *)
Definition array_set (a : char_array) (i : nat) (c : ascii) : option char_array :=
  if (i <? List.length a)%nat
  then Some (firstn i a ++ Some c :: skipn (S i) a)
  else None.

(** The string an array holds: its characters up to the first NUL.  None
    when reading meets a cell never written or leaves the array. *)
Fixpoint c_str (a : char_array) : option (list ascii) :=
  match a with
  | [] => None
  | None :: _ => None
  | Some c :: rest =>
      if Ascii.eqb c zero then Some []
      else option_map (cons c) (c_str rest)
  end.

Fixpoint is_prefix (p s : list ascii) : bool :=
  match p, s with
  | [], _ => true
  | _ :: _, [] => false
  | a :: p', b :: s' => Ascii.eqb a b && is_prefix p' s'
  end.

(** strstr(haystack, needle): offset of the first occurrence, None for NULL. *)
Fixpoint strstr (haystack needle : list ascii) : option nat :=
  if is_prefix needle haystack then Some 0%nat
  else match haystack with
       | [] => None
       | _ :: rest => option_map S (strstr rest needle)
       end.

(** What the claims call "the payload contains the token". *)
Definition contains (token text : list ascii) : Prop :=
  exists before after, text = before ++ token ++ after.

(** The characters of a byte sequence before its first NUL. *)
Fixpoint until_nul (l : list ascii) : list ascii :=
  match l with
  | [] => []
  | c :: rest => if Ascii.eqb c zero then [] else c :: until_nul rest
  end.

(** ** The sketch *)

Section Sketch.

Variable cfg : config.

(* void mqttSendCommand(const bool newState) *)
Definition mqttSendCommand (newState : bool) (s : state) : state :=
  let s := emit (Publish (MQTT_COMMAND cfg)
                   (if newState then BULB_ON cfg else BULB_OFF cfg)) s in
  set_lastMqttCommandSent (millis s) s.

(* void setRelayOn(bool newState) *)
Definition setRelayOn (newState : bool) (s : state) : state :=
  if negb (Bool.eqb (relayOn s) newState) then
    let s := digitalWrite (RELAY_PIN cfg)
               (if bulbOn s then RELAY_ON cfg else RELAY_OFF cfg) s in
    set_relayOn newState s
  else s.

(* bool setBulbOn(const bool newState) *)
Definition setBulbOn (newState : bool) (s : state) : bool * state :=
  if negb (Bool.eqb (bulbOn s) newState) then
    let s := set_bulbOn newState s in
    let s := match SHADOW_LED cfg with
             | Some led =>
                 digitalWrite (SHADOW_LED_PIN led)
                   (if bulbOn s then SHADOW_LED_ON led else SHADOW_LED_OFF led) s
             | None => s
             end in
    (true, s)
  else (false, s).

(** The first three statements of mqttCallback: the payload is copied into
    the local array message[MQTT_MAX_PACKET_SIZE] and a NUL is stored
    behind it.  [length] is the length of the payload. *)
Definition msglen_of (length : nat) : nat :=
  let size := MQTT_MAX_PACKET_SIZE cfg in
  if (length <? size)%nat then length else size.

Definition copy_payload (payload : list ascii) : option char_array :=
  let message := uninitialised (MQTT_MAX_PACKET_SIZE cfg) in
  let msglen := msglen_of (List.length payload) in
  match memcpy message payload msglen with
  | None => None
  | Some message => array_set message msglen zero
  end.

(* void mqttCallback(char* topic, byte* payload, unsigned int length)
   payload points to length bytes: the model takes them as one list.
   The result is None when a statement leaves the bounds of message. *)
Definition mqttCallback (topic : string) (payload : list ascii) (s : state)
  : option state :=
  match copy_payload payload with
  | None => None
  | Some message =>
      if mqttCommandFailed s then
        let s := set_syncLost (syncLost s + 1) s in
        let s := mqttSendCommand (bulbOn s) s in
        Some (set_mqttCommandFailed false s)
      else
        match c_str message with
        | None => None
        | Some text =>
            match strstr text (list_ascii_of_string (STATE_ON cfg)) with
            | Some _ =>
                let s := snd (setBulbOn true s) in
                let s := set_lastMqttCommandSent 0 s in
                Some (setRelayOn true s)
            | None =>
                match strstr text (list_ascii_of_string (STATE_OFF cfg)) with
                | Some _ =>
                    let s := snd (setBulbOn false s) in
                    Some (set_lastMqttCommandSent 0 s)
                | None => Some s
                end
            end
        end
  end.

(* boolean mqttReconnect(): connect_ok is what mqttClient.connect returns,
   connected_after what mqttClient.connected() returns at the end. *)
Definition mqttReconnect (connect_ok connected_after : bool) (s : state)
  : bool * state :=
  let s := emit Connect s in
  let s :=
    if connect_ok then
      let s := emit (Publish (MQTT_LWT cfg) (MQTT_WILL_UP_MSG cfg)) s in
      let s := match MQTT_STATE cfg with
               | Some t => emit (Subscribe t) s
               | None => s
               end in
      match MQTT_UPDATE cfg with
      | Some t => emit (Subscribe t) s
      | None => s
      end
    else s in
  (connected_after, s).

(** mqttClient.loop(): the messages it hands to the callback, in order. *)
Fixpoint deliver (inbound : list (string * list ascii)) (s : state)
  : option state :=
  match inbound with
  | [] => Some s
  | (topic, payload) :: rest =>
      match mqttCallback topic payload s with
      | None => None
      | Some s => deliver rest s
      end
  end.

(* void mqttLoop() *)
Definition mqttLoop (connected connect_ok connected_after : bool)
    (inbound : list (string * list ascii)) (s : state) : option state :=
  if negb connected then
    let s := if mqttAvailable s
             then set_mqttAvailable false (set_mqttLost (mqttLost s + 1) s)
             else s in
    let now := millis s in
    if u32 (now - lastMqttConnectAttempt s) >? 5000 then
      let s := set_lastMqttConnectAttempt now s in
      let '(ok, s) := mqttReconnect connect_ok connected_after s in
      if ok then Some (set_mqttAvailable true (set_lastMqttConnectAttempt 0 s))
      else Some s
    else Some s
  else
    let s := set_mqttAvailable true s in
    deliver inbound s.

(* void buttonLoop(): update is what debouncer.update() returns, read what
   debouncer.read() returns. *)
Definition buttonLoop (update : bool) (read : level) (s : state) : state :=
  if update then
    let toggleSwitch := false in
    let toggleSwitch :=
      if BUTTON_HIGH_TO_LOW cfg then toggleSwitch || level_eqb read LOW
      else toggleSwitch in
    let toggleSwitch :=
      if BUTTON_LOW_TO_HIGH cfg then toggleSwitch || level_eqb read HIGH
      else toggleSwitch in
    if toggleSwitch then
      let s := set_pushCount (pushCount s + 1) s in
      let s := snd (setBulbOn (negb (bulbOn s)) s) in
      mqttSendCommand (bulbOn s) s
    else s
  else s.

(* void manageCommandTimeout()
   The C comparison is between unsigned longs: the macro is converted.
   The comparison below is that one for 0 <= COMMAND_TIMEOUT < 2^32, which
   the theorems that assume the timeout has fired take as a hypothesis. *)
Definition manageCommandTimeout (s : state) : state :=
  if negb (lastMqttCommandSent s =? 0) then
    let s :=
      if u32 (millis s - lastMqttCommandSent s) >? COMMAND_TIMEOUT cfg then
        let s := set_pushLost (pushLost s + 1) s in
        let s := set_lastMqttCommandSent 0 s in
        let s := set_mqttCommandFailed true s in
        if bulbOn s && relayOn s then
          let s := setRelayOn false s in
          delay 1000 s
        else s
      else s in
    if mqttCommandFailed s then setRelayOn (bulbOn s) s else s
  else s.

(** What the world supplies to one pass of loop(). *)
Record tick_input : Type := {
  ti_elapsed : Z;                               (* ms since the last pass *)
  ti_connected : bool;                          (* mqttClient.connected() *)
  ti_connect_ok : bool;
  ti_connected_after : bool;
  ti_inbound : list (string * list ascii);      (* delivered by mqttClient.loop() *)
  ti_update : bool;                             (* debouncer.update() *)
  ti_read : level                               (* debouncer.read() *)
}.

(* void loop(): statsLoop, temperatureLoop, the syslog keep-alive and
   ArduinoOTA.handle() are optional and touch none of the engine's
   globals; they are not modelled. *)
Definition loop (i : tick_input) (s : state) : option state :=
  match mqttLoop (ti_connected i) (ti_connect_ok i) (ti_connected_after i)
          (ti_inbound i) s with
  | None => None
  | Some s =>
      let s := manageCommandTimeout s in
      Some (buttonLoop (ti_update i) (ti_read i) s)
  end.

(** One scheduler tick: time passes, then loop() runs once. *)
Definition tick (i : tick_input) (s : state) : option state :=
  loop i (elapse (ti_elapsed i) s).

(** Whether a button reading makes buttonLoop toggle the bulb state: the
    debouncer saw a change, towards a level the build reacts to. *)
Definition edge_toggles (update : bool) (read : level) : bool :=
  update &&
  ((BUTTON_HIGH_TO_LOW cfg && level_eqb read LOW)
   || (BUTTON_LOW_TO_HIGH cfg && level_eqb read HIGH)).

Definition toggles (i : tick_input) : bool :=
  edge_toggles (ti_update i) (ti_read i).

(** Successive ticks. *)
Fixpoint run (inputs : list tick_input) (s : state) : option state :=
  match inputs with
  | [] => Some s
  | i :: rest =>
      match tick i s with
      | None => None
      | Some s => run rest s
      end
  end.

(** The transitions of the engine, one constructor per entry point, and
    time passing between them. *)
Inductive step : state -> state -> Prop :=
| step_time (dt : Z) (s : state) :
    step s (elapse dt s)
| step_message (topic : string) (payload : list ascii) (s s' : state) :
    mqttCallback topic payload s = Some s' -> step s s'
| step_timeout (s : state) :
    step s (manageCommandTimeout s)
| step_button (update : bool) (read : level) (s : state) :
    step s (buttonLoop update read s).

(** The shadow LED write of setBulbOn, when the build has the LED. *)
Definition shadow_write (on : bool) : list event :=
  match SHADOW_LED cfg with
  | Some led =>
      [DigitalWrite (SHADOW_LED_PIN led)
         (if on then SHADOW_LED_ON led else SHADOW_LED_OFF led)]
  | None => []
  end.

(** The command published for a bulb state. *)
Definition command_for (on : bool) : event :=
  Publish (MQTT_COMMAND cfg) (if on then BULB_ON cfg else BULB_OFF cfg).

End Sketch.

(** The level last written to a pin, if any. *)
Fixpoint pin_level (pin : Z) (trace : list event) : option level :=
  match trace with
  | [] => None
  | e :: rest =>
      match pin_level pin rest with
      | Some v => Some v
      | None =>
          match e with
          | DigitalWrite p v => if p =? pin then Some v else None
          | _ => None
          end
      end
  end.

(** The level that stands for a relay state. *)
Definition relay_level (cfg : config) (on : bool) : level :=
  if on then RELAY_ON cfg else RELAY_OFF cfg.

(** ** A sample build

    COMMAND_TIMEOUT is the 1.5 s of the sketch's header comment; the other
    values stand in for FF_Shelly.h. *)
Definition sample : config := {|
  RELAY_PIN := 15;
  RELAY_ON := HIGH;
  RELAY_OFF := LOW;
  SHADOW_LED := None;
  BUTTON_HIGH_TO_LOW := true;
  BUTTON_LOW_TO_HIGH := true;
  COMMAND_TIMEOUT := 1500;
  MQTT_MAX_PACKET_SIZE := 128;
  MQTT_COMMAND := "milight/command";
  BULB_ON := "ON";
  BULB_OFF := "OFF";
  STATE_ON := "ON";
  STATE_OFF := "OFF";
  MQTT_STATE := Some "milight/state"%string;
  MQTT_UPDATE := None;
  MQTT_LWT := "shelly/LWT";
  MQTT_WILL_UP_MSG := "up"
|}.

(** Modelled from the spec: the initial values of the globals are in the
    missing FF_Shelly.h; the spec has the bulb state OFF, the relay off and
    no command pending at boot.  setup() writes RELAY_OFF to the relay pin. *)
Definition boot (cfg : config) : state :=
  mkState false false false false 0 0 0 0 0 0 0
    (DigitalWrite (RELAY_PIN cfg) (RELAY_OFF cfg)
     :: match SHADOW_LED cfg with
        | Some led => [DigitalWrite (SHADOW_LED_PIN led) (SHADOW_LED_OFF led)]
        | None => []
        end).

(** In bypass mode with no command pending, the relay already mirrors the
    bulb state: what the timeout check relies on when it skips its body. *)
Definition settled (s : state) : Prop :=
  mqttCommandFailed s = true -> lastMqttCommandSent s = 0 ->
  relayOn s = bulbOn s.

(** Inputs of the sample scenarios. *)
Definition quiet (dt : Z) : tick_input :=
  {| ti_elapsed := dt; ti_connected := true; ti_connect_ok := true;
     ti_connected_after := true; ti_inbound := [];
     ti_update := false; ti_read := HIGH |}.

Definition press (dt : Z) : tick_input :=
  {| ti_elapsed := dt; ti_connected := true; ti_connect_ok := true;
     ti_connected_after := true; ti_inbound := [];
     ti_update := true; ti_read := LOW |}.

(** The bytes of a text payload. *)
Definition bytes_of (s : string) : list ascii := list_ascii_of_string s.

(** Sample inputs and states, used to run the theorems below. *)

Definition hears (dt : Z) (payload : string) : tick_input :=
  {| ti_elapsed := dt; ti_connected := true; ti_connect_ok := true;
     ti_connected_after := true;
     ti_inbound := [("milight/state"%string, bytes_of payload)];
     ti_update := false; ti_read := HIGH |}.

(** The bulb was lit, switched off by radio, and the button has just asked
    for light again: relay still on, command ON pending since 5100 ms. *)
Definition relit : state :=
  mkState true true false true 5100 0 0 0 2 0 5100
    [DigitalWrite 15 LOW; DigitalWrite 15 HIGH;
     Publish "milight/command" "OFF"; Publish "milight/command" "ON"].

(** Bypass mode, entered from boot by a button press nobody answered. *)
Definition bypassed : state :=
  mkState true true true true 0 0 0 1 1 0 2100
    [DigitalWrite 15 LOW; Publish "milight/command" "ON"; DigitalWrite 15 HIGH].

(** [bypassed] after one more button edge, 500 ms later. *)
Definition toggled_in_bypass : state :=
  mkState false true true true 2600 0 0 1 2 0 2600
    [DigitalWrite 15 LOW; Publish "milight/command" "ON"; DigitalWrite 15 HIGH;
     Publish "milight/command" "OFF"].

(** [toggled_in_bypass] after the next, quiet tick. *)
Definition followed : state :=
  mkState false false true true 2600 0 0 1 2 0 2700
    [DigitalWrite 15 LOW; Publish "milight/command" "ON"; DigitalWrite 15 HIGH;
     Publish "milight/command" "OFF"; DigitalWrite 15 LOW].


(** [relit] once the state topic has answered OFF. *)
Definition relit_off : state :=
  mkState false true false true 0 0 0 0 2 0 5100
    [DigitalWrite 15 LOW; DigitalWrite 15 HIGH;
     Publish "milight/command" "OFF"; Publish "milight/command" "ON"].

(** The fields the reconciliation engine decides on. *)
Definition same_engine (s s' : state) : Prop :=
  bulbOn s' = bulbOn s /\
  relayOn s' = relayOn s /\
  mqttCommandFailed s' = mqttCommandFailed s /\
  lastMqttCommandSent s' = lastMqttCommandSent s.

(** ** Properties of whole states, used beyond the claims *)

(** The shadow LED, when the build has one, sits on a pin of its own. *)
Definition pins_apart (cfg : config) : Prop :=
  forall led, SHADOW_LED cfg = Some led -> SHADOW_LED_PIN led <> RELAY_PIN cfg.

(** The relay pin is at the level of the recorded relay state. *)
Definition relay_pin_shows (cfg : config) (s : state) : Prop :=
  pin_level (RELAY_PIN cfg) (effects s) = Some (relay_level cfg (relayOn s)).

(** The shadow LED is at the level of the bulb state. *)
Definition led_shows (cfg : config) (s : state) : Prop :=
  forall led, SHADOW_LED cfg = Some led ->
  pin_level (SHADOW_LED_PIN led) (effects s) =
    Some (if bulbOn s then SHADOW_LED_ON led else SHADOW_LED_OFF led).

(** One if a command is pending, zero otherwise. *)
Definition pending (s : state) : Z :=
  if lastMqttCommandSent s =? 0 then 0 else 1.

(** Every timeout counted, and the command still pending, goes back to a
    command that was sent: by the button or by a recovery. *)
Definition accounted (s : state) : Prop :=
  pushLost s + pending s <= pushCount s + syncLost s.

(** A payload the message buffer of mqttCallback can hold with its NUL. *)
Definition fits (cfg : config) (payload : list ascii) : Prop :=
  (List.length payload < MQTT_MAX_PACKET_SIZE cfg)%nat.

Definition is_pin_write (e : event) : Prop :=
  match e with
  | DigitalWrite _ _ => True
  | _ => False
  end.

(** A build with a shadow LED, for the sample runs. *)
Definition sample_led : config := {|
  RELAY_PIN := 15;
  RELAY_ON := HIGH;
  RELAY_OFF := LOW;
  SHADOW_LED := Some {| SHADOW_LED_PIN := 0;
                        SHADOW_LED_ON := LOW;
                        SHADOW_LED_OFF := HIGH |};
  BUTTON_HIGH_TO_LOW := true;
  BUTTON_LOW_TO_HIGH := true;
  COMMAND_TIMEOUT := 1500;
  MQTT_MAX_PACKET_SIZE := 128;
  MQTT_COMMAND := "milight/command";
  BULB_ON := "ON";
  BULB_OFF := "OFF";
  STATE_ON := "ON";
  STATE_OFF := "OFF";
  MQTT_STATE := Some "milight/state"%string;
  MQTT_UPDATE := None;
  MQTT_LWT := "shelly/LWT";
  MQTT_WILL_UP_MSG := "up"
|}.

(** A pass of loop() without broker connection; the connect attempt, if one
    is due, fails. *)
Definition offline (dt : Z) : tick_input :=
  {| ti_elapsed := dt; ti_connected := false; ti_connect_ok := false;
     ti_connected_after := false; ti_inbound := [];
     ti_update := false; ti_read := HIGH |}.

Ltac open_state s :=
  let bulb := fresh "bulb" in
  let relay := fresh "relay" in
  let failed := fresh "failed" in
  let sent := fresh "sent" in
  destruct s as [bulb relay failed ? sent ? ? ? ? ? ? ?]; cbn in *.

(** ** Strings: strstr finds exactly the substrings *)

Lemma is_prefix_app (p rest : list ascii) : is_prefix p (p ++ rest) = true.
Proof.
  induction p as [|a p IH]; cbn; [reflexivity|].
  now rewrite Ascii.eqb_refl, IH.
Qed.

Lemma is_prefix_true (p s : list ascii) :
  is_prefix p s = true -> exists rest, s = p ++ rest.
Proof.
  revert s; induction p as [|a p IH]; intros s H.
  - now exists s.
  - destruct s as [|b s]; cbn in H; [discriminate|].
    apply andb_prop in H as [Hab Hp].
    apply Ascii.eqb_eq in Hab; subst b.
    destruct (IH _ Hp) as [rest ->].
    now exists rest.
Qed.

Lemma strstr_found (haystack needle : list ascii) (k : nat) :
  strstr haystack needle = Some k -> contains needle haystack.
Proof.
  revert k; induction haystack as [|c h IH]; intros k; cbn.
  - destruct (is_prefix needle []) eqn:E; [|discriminate].
    intros _. destruct (is_prefix_true _ _ E) as [rest ->].
    now exists [], rest.
  - destruct (is_prefix needle (c :: h)) eqn:E.
    + intros _. destruct (is_prefix_true _ _ E) as [rest ->].
      now exists [], rest.
    + destruct (strstr h needle) as [j|] eqn:Hj; [|discriminate].
      intros _. destruct (IH j eq_refl) as (before & after & ->).
      now exists (c :: before), after.
Qed.

Lemma strstr_finds (haystack needle : list ascii) :
  contains needle haystack -> exists k, strstr haystack needle = Some k.
Proof.
  intros (before & after & ->).
  induction before as [|c before IH]; cbn [app].
  - exists 0%nat.
    destruct (needle ++ after) eqn:E; cbn;
      rewrite <- ?E, is_prefix_app; reflexivity.
  - cbn. destruct (is_prefix needle (c :: before ++ needle ++ after)).
    + now exists 0%nat.
    + destruct IH as [k ->]. now exists (S k).
Qed.

Lemma strstr_absent (haystack needle : list ascii) :
  ~ contains needle haystack -> strstr haystack needle = None.
Proof.
  intros H. destruct (strstr haystack needle) as [k|] eqn:E; [|reflexivity].
  exfalso. eauto using strstr_found.
Qed.

Lemma until_nul_prefix (l : list ascii) : exists rest, l = until_nul l ++ rest.
Proof.
  induction l as [|c l [rest IH]]; cbn.
  - now exists [].
  - destruct (Ascii.eqb c zero).
    + now exists (c :: l).
    + exists rest. cbn. now rewrite <- IH.
Qed.

Lemma contains_until_nul (token l : list ascii) :
  contains token (until_nul l) -> contains token l.
Proof.
  intros (before & after & E).
  destruct (until_nul_prefix l) as [rest Hl].
  exists before, (after ++ rest).
  rewrite Hl, E. now rewrite <- !app_assoc.
Qed.

Lemma until_nul_text (l : list ascii) :
  Forall (fun c => c <> zero) l -> until_nul l = l.
Proof.
  induction 1 as [|c l Hc _ IH]; cbn; [reflexivity|].
  apply Ascii.eqb_neq in Hc. now rewrite Hc, IH.
Qed.

Lemma c_str_written (l : list ascii) (rest : char_array) :
  c_str (map Some l ++ Some zero :: rest) = Some (until_nul l).
Proof.
  induction l as [|c l IH]; cbn; [reflexivity|].
  destruct (Ascii.eqb c zero); [reflexivity|].
  now rewrite IH.
Qed.

(** ** The message buffer of mqttCallback *)

Section Buffer.

Variable cfg : config.

Lemma msglen_of_fits (n : nat) :
  (n < MQTT_MAX_PACKET_SIZE cfg)%nat -> msglen_of cfg n = n.
Proof.
  intros H. unfold msglen_of. apply Nat.ltb_lt in H. now rewrite H.
Qed.

Lemma msglen_of_clamped (n : nat) :
  (MQTT_MAX_PACKET_SIZE cfg <= n)%nat ->
  msglen_of cfg n = MQTT_MAX_PACKET_SIZE cfg.
Proof.
  intros H. unfold msglen_of. apply Nat.ltb_ge in H. now rewrite H.
Qed.

Lemma copy_payload_fits (payload : list ascii) :
  (List.length payload < MQTT_MAX_PACKET_SIZE cfg)%nat ->
  exists message,
    copy_payload cfg payload = Some message /\
    c_str message = Some (until_nul payload).
Proof.
  intros H. unfold copy_payload, memcpy, array_set, uninitialised.
  rewrite msglen_of_fits by exact H.
  rewrite repeat_length, firstn_all.
  replace (List.length payload <=? MQTT_MAX_PACKET_SIZE cfg)%nat with true
    by (symmetry; apply Nat.leb_le; lia).
  rewrite Nat.leb_refl. cbn [andb].
  set (tail := skipn (List.length payload) (repeat None (MQTT_MAX_PACKET_SIZE cfg))).
  assert (Htail : (0 < List.length tail)%nat).
  { subst tail. rewrite length_skipn, repeat_length. lia. }
  replace (List.length payload <? List.length (map Some payload ++ tail))%nat
    with true
    by (symmetry; apply Nat.ltb_lt; rewrite length_app, length_map; lia).
  eexists; split; [reflexivity|].
  rewrite firstn_app, length_map, Nat.sub_diag, firstn_O, app_nil_r.
  rewrite firstn_all2 by (rewrite length_map; lia).
  apply c_str_written.
Qed.

Lemma copy_payload_overflow (payload : list ascii) :
  (MQTT_MAX_PACKET_SIZE cfg <= List.length payload)%nat ->
  copy_payload cfg payload = None.
Proof.
  intros H. unfold copy_payload, memcpy, array_set, uninitialised.
  rewrite msglen_of_clamped by exact H.
  rewrite repeat_length, Nat.leb_refl.
  replace (MQTT_MAX_PACKET_SIZE cfg <=? List.length payload)%nat with true
    by (symmetry; apply Nat.leb_le; lia).
  cbn [andb].
  rewrite length_app, length_map, length_firstn, length_skipn, repeat_length.
  replace (MQTT_MAX_PACKET_SIZE cfg <? _)%nat with false; [reflexivity|].
  symmetry; apply Nat.ltb_ge; lia.
Qed.

End Buffer.

(** ** Sample scenarios *)

Lemma relit_reached :
  run sample [hears 100 "ON"; press 900; hears 100 "OFF"; press 4000]
    (boot sample) = Some relit.
Proof. vm_compute. reflexivity. Qed.

Lemma bypassed_reached :
  run sample [press 100; quiet 2000] (boot sample) = Some bypassed.
Proof. vm_compute. reflexivity. Qed.

(** ** The engine *)

Lemma pin_level_last (pin : Z) (v : level) (trace : list event) :
  pin_level pin (trace ++ [DigitalWrite pin v]) = Some v.
Proof.
  induction trace as [|e trace IH]; cbn.
  - now rewrite Z.eqb_refl.
  - now rewrite IH.
Qed.

(** What setRelayOn does, for every argument and state: nothing when the
    recorded state already is newState; otherwise the pin receives the
    level of bulbOn, and newState is recorded. *)
Lemma setRelayOn_spec (cfg : config) (newState : bool) (s : state) :
  setRelayOn cfg newState s =
    if Bool.eqb (relayOn s) newState then s
    else set_relayOn newState
           (digitalWrite (RELAY_PIN cfg) (relay_level cfg (bulbOn s)) s).
Proof.
  unfold setRelayOn, relay_level.
  destruct (Bool.eqb (relayOn s) newState); reflexivity.
Qed.

Lemma setRelayOn_relayOn (cfg : config) (newState : bool) (s : state) :
  relayOn (setRelayOn cfg newState s) = newState.
Proof.
  rewrite setRelayOn_spec.
  destruct (Bool.eqb (relayOn s) newState) eqn:E; [|reflexivity].
  now apply Bool.eqb_prop.
Qed.

(** C1, at the input where the code departs from it: setRelayOn(false)
    called while bulbOn and relayOn are both true records the relay as off
    but writes RELAY_ON to the relay pin, which is therefore left at the
    level of a relay that is on. *)
Theorem setRelayOn_false_writes_RELAY_ON (cfg : config) (s : state) :
  let s0 := set_relayOn true (set_bulbOn true s) in
  let s1 := setRelayOn cfg false s0 in
  relayOn s1 = false /\
  effects s1 = effects s ++ [DigitalWrite (RELAY_PIN cfg) (RELAY_ON cfg)] /\
  pin_level (RELAY_PIN cfg) (effects s1) = Some (RELAY_ON cfg).
Proof.
  cbn zeta. rewrite setRelayOn_spec. cbn.
  repeat split. apply pin_level_last.
Qed.

(** C2, at the input where the code departs from it: when the timeout
    fires with bulbOn and relayOn both true, the calls that reach the
    hardware are digitalWrite(RELAY_PIN, RELAY_ON), delay(1000),
    digitalWrite(RELAY_PIN, RELAY_ON): RELAY_OFF is never written.
    COMMAND_TIMEOUT is nonnegative, so that the comparison is the code's. *)
Theorem discharge_never_writes_RELAY_OFF (cfg : config) (s : state) :
  0 <= COMMAND_TIMEOUT cfg ->
  lastMqttCommandSent s <> 0 ->
  u32 (millis s - lastMqttCommandSent s) > COMMAND_TIMEOUT cfg ->
  bulbOn s = true ->
  relayOn s = true ->
  effects (manageCommandTimeout cfg s) =
    effects s ++ [DigitalWrite (RELAY_PIN cfg) (RELAY_ON cfg);
                  Delay 1000;
                  DigitalWrite (RELAY_PIN cfg) (RELAY_ON cfg)] /\
  relayOn (manageCommandTimeout cfg s) = true.
Proof.
  intros _ Hsent Hlate Hbulb Hrelay.
  unfold manageCommandTimeout, millis in *.
  apply Z.eqb_neq in Hsent. rewrite Hsent. cbn [negb].
  apply Z.gt_lt, Z.ltb_lt in Hlate. rewrite Z.gtb_ltb, Hlate.
  open_state s. subst. cbn.
  split; [|reflexivity].
  now rewrite <- !app_assoc.
Qed.

Lemma discharge_at_relit :
  let s := elapse 1600 relit in
  (0 <= COMMAND_TIMEOUT sample /\
   lastMqttCommandSent s <> 0 /\
   u32 (millis s - lastMqttCommandSent s) > COMMAND_TIMEOUT sample /\
   bulbOn s = true /\ relayOn s = true) /\
  effects (manageCommandTimeout sample s) =
    effects s ++ [DigitalWrite 15 HIGH; Delay 1000; DigitalWrite 15 HIGH] /\
  relayOn (manageCommandTimeout sample s) = true.
Proof.
  assert (H1 : lastMqttCommandSent (elapse 1600 relit) <> 0)
    by (vm_compute; discriminate).
  assert (H2 : u32 (millis (elapse 1600 relit)
                    - lastMqttCommandSent (elapse 1600 relit))
               > COMMAND_TIMEOUT sample) by reflexivity.
  assert (H0 : 0 <= COMMAND_TIMEOUT sample) by (cbn; lia).
  split; [repeat split; assumption|].
  exact (discharge_never_writes_RELAY_OFF sample (elapse 1600 relit)
           H0 H1 H2 eq_refl eq_refl).
Defined.

(** *** The button *)

Lemma buttonLoop_idle (cfg : config) (update : bool) (read : level) (s : state) :
  edge_toggles cfg update read = false -> buttonLoop cfg update read s = s.
Proof.
  unfold edge_toggles, buttonLoop.
  destruct update, (BUTTON_HIGH_TO_LOW cfg), (BUTTON_LOW_TO_HIGH cfg), read;
    cbn; intros H; try discriminate H; reflexivity.
Qed.

(** What a toggling edge does, as one state. *)
Lemma buttonLoop_toggle (cfg : config) (update : bool) (read : level) (s : state) :
  edge_toggles cfg update read = true ->
  buttonLoop cfg update read s =
    mqttSendCommand cfg (negb (bulbOn s))
      (snd (setBulbOn cfg (negb (bulbOn s))
              (set_pushCount (pushCount s + 1) s))).
Proof.
  unfold edge_toggles, buttonLoop.
  destruct update, (BUTTON_HIGH_TO_LOW cfg), (BUTTON_LOW_TO_HIGH cfg), read;
    cbn; intros H; try discriminate H;
    unfold setBulbOn; cbn; destruct (bulbOn s); cbn;
    destruct (SHADOW_LED cfg); reflexivity.
Qed.

(** The button check never touches the relay nor the bypass flag. *)
Lemma buttonLoop_relayOn (cfg : config) (update : bool) (read : level) (s : state) :
  relayOn (buttonLoop cfg update read s) = relayOn s.
Proof.
  destruct (edge_toggles cfg update read) eqn:Hedge.
  - rewrite buttonLoop_toggle by exact Hedge.
    unfold mqttSendCommand, setBulbOn, digitalWrite. open_state s.
    destruct bulb; cbn; destruct (SHADOW_LED cfg); reflexivity.
  - now rewrite buttonLoop_idle.
Qed.

Lemma buttonLoop_mqttCommandFailed
    (cfg : config) (update : bool) (read : level) (s : state) :
  mqttCommandFailed (buttonLoop cfg update read s) = mqttCommandFailed s.
Proof.
  destruct (edge_toggles cfg update read) eqn:Hedge.
  - rewrite buttonLoop_toggle by exact Hedge.
    unfold mqttSendCommand, setBulbOn, digitalWrite. open_state s.
    destruct bulb; cbn; destruct (SHADOW_LED cfg); reflexivity.
  - now rewrite buttonLoop_idle.
Qed.

(** C4 as stated fails: 100 ms after boot (bulb off, relay off) a button
    edge turns the bulb state on and leaves the relay off. *)
Lemma button_edge_leaves_relay_off :
  edge_toggles sample true LOW = true /\
  bulbOn (elapse 100 (boot sample)) = false /\
  bulbOn (buttonLoop sample true LOW (elapse 100 (boot sample))) = true /\
  relayOn (buttonLoop sample true LOW (elapse 100 (boot sample))) = false.
Proof. repeat split. Qed.

(** C4, amended: on every button edge that toggles (a change reported by
    the debouncer towards a level the build reacts to), in any mode, the
    engine inverts bulbOn, leaves relayOn and the bypass flag as they are,
    publishes the command of the new bulb state (after the shadow LED
    write, when the build has one), records the current time as the time
    of the last command, and adds one to pushCount. *)
Theorem button_edge_toggles_and_sends
    (cfg : config) (update : bool) (read : level) (s : state) :
  edge_toggles cfg update read = true ->
  let s' := buttonLoop cfg update read s in
  bulbOn s' = negb (bulbOn s) /\
  relayOn s' = relayOn s /\
  mqttCommandFailed s' = mqttCommandFailed s /\
  effects s' = effects s ++ shadow_write cfg (negb (bulbOn s))
                         ++ [command_for cfg (negb (bulbOn s))] /\
  lastMqttCommandSent s' = millis s /\
  pushCount s' = pushCount s + 1 /\
  pushLost s' = pushLost s /\
  syncLost s' = syncLost s.
Proof.
  intros H. cbn zeta. rewrite (buttonLoop_toggle _ _ _ _ H).
  unfold mqttSendCommand, setBulbOn, shadow_write, command_for, digitalWrite.
  open_state s.
  destruct bulb; cbn; destruct (SHADOW_LED cfg); cbn;
    rewrite <- ?app_assoc; repeat split.
Qed.

Lemma button_edge_at_boot :
  edge_toggles sample true LOW = true /\
  let s' := buttonLoop sample true LOW (elapse 100 (boot sample)) in
  bulbOn s' = true /\
  relayOn s' = false /\
  mqttCommandFailed s' = false /\
  effects s' = [DigitalWrite 15 LOW; Publish "milight/command" "ON"] /\
  lastMqttCommandSent s' = 100 /\
  pushCount s' = 1 /\
  pushLost s' = 0 /\
  syncLost s' = 0.
Proof.
  split; [reflexivity|].
  exact (button_edge_toggles_and_sends sample true LOW
           (elapse 100 (boot sample)) eq_refl).
Defined.

(** *** The timeout check *)

Lemma u32_elapsed (t0 d : Z) : 0 <= d < 2 ^ 32 -> u32 (u32 (t0 + d) - t0) = d.
Proof.
  intros Hd. unfold u32.
  rewrite Zminus_mod_idemp_l.
  replace (t0 + d - t0) with d by lia.
  now apply Z.mod_small.
Qed.

(** Before the timeout, in normal mode, the check changes nothing. *)
Lemma manageCommandTimeout_waits (cfg : config) (s : state) (d : Z) :
  0 <= d <= COMMAND_TIMEOUT cfg -> d < 2 ^ 32 ->
  millis s = u32 (lastMqttCommandSent s + d) ->
  mqttCommandFailed s = false ->
  manageCommandTimeout cfg s = s.
Proof.
  intros Hd Hd' Hnow Hflag. unfold manageCommandTimeout.
  destruct (lastMqttCommandSent s =? 0); cbn [negb]; [reflexivity|].
  rewrite Hnow, u32_elapsed by lia.
  replace (d >? COMMAND_TIMEOUT cfg) with false
    by (symmetry; rewrite Z.gtb_ltb; apply Z.ltb_ge; lia).
  now rewrite Hflag.
Qed.

(** C5: a command is pending since t0 (lastMqttCommandSent = t0, not 0) and
    the timeout check runs d ms later, d above COMMAND_TIMEOUT (and below
    the 2^32 ms at which millis() wraps): the check adds one to pushLost,
    clears lastMqttCommandSent and sets mqttCommandFailed. *)
Theorem timeout_enters_bypass (cfg : config) (s : state) (t0 d : Z) :
  lastMqttCommandSent s = t0 ->
  t0 <> 0 ->
  0 <= COMMAND_TIMEOUT cfg < d ->
  d < 2 ^ 32 ->
  millis s = u32 (t0 + d) ->
  let s' := manageCommandTimeout cfg s in
  pushLost s' = pushLost s + 1 /\
  lastMqttCommandSent s' = 0 /\
  mqttCommandFailed s' = true.
Proof.
  intros Hsent Ht0 Hd Hd' Hnow. cbn zeta. unfold manageCommandTimeout.
  rewrite Hsent, Hnow, u32_elapsed by lia.
  apply Z.eqb_neq in Ht0. rewrite Ht0. cbn [negb].
  replace (d >? COMMAND_TIMEOUT cfg) with true
    by (symmetry; rewrite Z.gtb_ltb; apply Z.ltb_lt; lia).
  rewrite !setRelayOn_spec.
  open_state s. destruct bulb, relay; cbn; repeat split.
Qed.

Lemma timeout_enters_bypass_at_relit :
  let s := elapse 1600 relit in
  (lastMqttCommandSent s = 5100 /\ 5100 <> 0 /\
   0 <= COMMAND_TIMEOUT sample < 1600 /\ 1600 < 2 ^ 32 /\
   millis s = u32 (5100 + 1600)) /\
  pushLost (manageCommandTimeout sample s) = pushLost s + 1 /\
  lastMqttCommandSent (manageCommandTimeout sample s) = 0 /\
  mqttCommandFailed (manageCommandTimeout sample s) = true.
Proof.
  assert (H1 : 5100 <> 0) by discriminate.
  assert (H2 : 0 <= COMMAND_TIMEOUT sample < 1600) by (cbn; lia).
  assert (H3 : 1600 < 2 ^ 32) by reflexivity.
  split; [repeat split; try assumption; apply H2|].
  exact (timeout_enters_bypass sample (elapse 1600 relit) 5100 1600
           eq_refl H1 H2 H3 eq_refl).
Defined.

(** *** Inbound messages *)

(** A payload that reaches the end of the buffer: the callback leaves the
    bounds of message. *)
Lemma mqttCallback_overflow
    (cfg : config) (topic : string) (payload : list ascii) (s : state) :
  (MQTT_MAX_PACKET_SIZE cfg <= List.length payload)%nat ->
  mqttCallback cfg topic payload s = None.
Proof.
  intros H. unfold mqttCallback. now rewrite copy_payload_overflow.
Qed.

(** Bypass mode: the message is answered by the current bulb state. *)
Lemma mqttCallback_bypass
    (cfg : config) (topic : string) (payload : list ascii) (s : state) :
  (List.length payload < MQTT_MAX_PACKET_SIZE cfg)%nat ->
  mqttCommandFailed s = true ->
  mqttCallback cfg topic payload s =
    Some (set_mqttCommandFailed false
            (mqttSendCommand cfg (bulbOn s)
               (set_syncLost (syncLost s + 1) s))).
Proof.
  intros Hfit Hflag. unfold mqttCallback.
  destruct (copy_payload_fits cfg payload Hfit) as (message & -> & _).
  now rewrite Hflag.
Qed.

(** Normal mode: the tokens are looked for in the payload read as a C
    string, STATE_ON first. *)
Lemma mqttCallback_normal
    (cfg : config) (topic : string) (payload : list ascii) (s : state) :
  (List.length payload < MQTT_MAX_PACKET_SIZE cfg)%nat ->
  mqttCommandFailed s = false ->
  mqttCallback cfg topic payload s =
    Some match strstr (until_nul payload) (bytes_of (STATE_ON cfg)) with
         | Some _ =>
             setRelayOn cfg true
               (set_lastMqttCommandSent 0 (snd (setBulbOn cfg true s)))
         | None =>
             match strstr (until_nul payload) (bytes_of (STATE_OFF cfg)) with
             | Some _ => set_lastMqttCommandSent 0 (snd (setBulbOn cfg false s))
             | None => s
             end
         end.
Proof.
  intros Hfit Hflag. unfold mqttCallback, bytes_of.
  destruct (copy_payload_fits cfg payload Hfit) as (message & -> & ->).
  rewrite Hflag.
  destruct (strstr (until_nul payload) (list_ascii_of_string (STATE_ON cfg)));
    [reflexivity|].
  destruct (strstr (until_nul payload) (list_ascii_of_string (STATE_OFF cfg)));
    reflexivity.
Qed.

(** After a message has been handled the engine is never in bypass mode. *)
Lemma mqttCallback_clears_flag
    (cfg : config) (topic : string) (payload : list ascii) (s s' : state) :
  mqttCallback cfg topic payload s = Some s' -> mqttCommandFailed s' = false.
Proof.
  intros H.
  destruct (Nat.lt_ge_cases (List.length payload) (MQTT_MAX_PACKET_SIZE cfg))
    as [Hfit|Hbig].
  - destruct (mqttCommandFailed s) eqn:Hflag.
    + rewrite mqttCallback_bypass in H by assumption.
      injection H as <-. reflexivity.
    + rewrite mqttCallback_normal in H by assumption.
      injection H as <-.
      rewrite setRelayOn_spec. unfold setBulbOn, digitalWrite.
      open_state s. subst.
      repeat match goal with
             | |- context [match ?x with _ => _ end] => destruct x; cbn
             end; reflexivity.
  - rewrite mqttCallback_overflow in H by assumption. discriminate.
Qed.

(** C6: in bypass mode, an inbound message on any topic, whatever its
    payload holds (its length below the size of the message buffer), is
    answered the same way: the command of the current bulb state is
    published, the bypass flag is cleared, syncLost grows by exactly one;
    the bulb and relay states stay, and the published command is now the
    pending one. *)
Theorem recovery_resends_bulb_state
    (cfg : config) (topic : string) (payload : list ascii) (s : state) :
  (List.length payload < MQTT_MAX_PACKET_SIZE cfg)%nat ->
  mqttCommandFailed s = true ->
  mqttCallback cfg topic payload s =
    Some (mkState (bulbOn s) (relayOn s) false (mqttAvailable s)
            (millis s) (lastMqttConnectAttempt s)
            (syncLost s + 1) (pushLost s) (pushCount s) (mqttLost s)
            (clock s) (effects s ++ [command_for cfg (bulbOn s)])).
Proof.
  intros Hfit Hflag. now rewrite mqttCallback_bypass.
Qed.

Lemma recovery_at_bypassed :
  ((List.length (bytes_of "OFF") < MQTT_MAX_PACKET_SIZE sample)%nat /\
   mqttCommandFailed bypassed = true) /\
  mqttCallback sample "milight/state" (bytes_of "OFF") bypassed =
    Some (mkState true true false true 2100 0 1 1 1 0 2100
            [DigitalWrite 15 LOW; Publish "milight/command" "ON";
             DigitalWrite 15 HIGH; Publish "milight/command" "ON"]).
Proof.
  assert (Hfit : (List.length (bytes_of "OFF") < MQTT_MAX_PACKET_SIZE sample)%nat)
    by (cbn; lia).
  split; [split; [exact Hfit | reflexivity]|].
  exact (recovery_resends_bulb_state sample "milight/state" (bytes_of "OFF")
           bypassed Hfit eq_refl).
Defined.

(** C7 as stated fails: in bypass mode a payload with neither token still
    clears the flag, counts a resync, publishes a command and starts the
    command timer. *)
Lemma tokenless_message_in_bypass_changes_state :
  strstr (bytes_of "hello") (bytes_of (STATE_ON sample)) = None /\
  strstr (bytes_of "hello") (bytes_of (STATE_OFF sample)) = None /\
  mqttCommandFailed bypassed = true /\
  lastMqttCommandSent bypassed = 0 /\
  mqttCallback sample "milight/state" (bytes_of "hello") bypassed =
    Some (mkState true true false true 2100 0 1 1 1 0 2100
            [DigitalWrite 15 LOW; Publish "milight/command" "ON";
             DigitalWrite 15 HIGH; Publish "milight/command" "ON"]).
Proof. vm_compute. repeat split. Qed.

(** C7, amended: in normal mode (the bypass flag is false), an inbound
    message whose payload (shorter than the message buffer) contains
    neither STATE_ON nor STATE_OFF leaves the whole state as it was: bulb,
    relay, flag, pending command and every counter, and nothing is added to
    the effects. *)
Theorem tokenless_message_is_ignored
    (cfg : config) (topic : string) (payload : list ascii) (s : state) :
  (List.length payload < MQTT_MAX_PACKET_SIZE cfg)%nat ->
  mqttCommandFailed s = false ->
  ~ contains (bytes_of (STATE_ON cfg)) payload ->
  ~ contains (bytes_of (STATE_OFF cfg)) payload ->
  mqttCallback cfg topic payload s = Some s.
Proof.
  intros Hfit Hflag Hon Hoff.
  rewrite mqttCallback_normal by assumption.
  rewrite !strstr_absent; auto using contains_until_nul.
Qed.

Lemma tokenless_message_at_boot :
  ((List.length (bytes_of "hello") < MQTT_MAX_PACKET_SIZE sample)%nat /\
   mqttCommandFailed (boot sample) = false /\
   ~ contains (bytes_of (STATE_ON sample)) (bytes_of "hello") /\
   ~ contains (bytes_of (STATE_OFF sample)) (bytes_of "hello")) /\
  mqttCallback sample "milight/state" (bytes_of "hello") (boot sample) =
    Some (boot sample).
Proof.
  assert (Hfit : (List.length (bytes_of "hello") < MQTT_MAX_PACKET_SIZE sample)%nat)
    by (cbn; lia).
  assert (Hon : ~ contains (bytes_of (STATE_ON sample)) (bytes_of "hello")).
  { intros H. apply strstr_finds in H as [k H]. discriminate H. }
  assert (Hoff : ~ contains (bytes_of (STATE_OFF sample)) (bytes_of "hello")).
  { intros H. apply strstr_finds in H as [k H]. discriminate H. }
  split; [repeat split; assumption|].
  exact (tokenless_message_is_ignored sample "milight/state" (bytes_of "hello")
           (boot sample) Hfit eq_refl Hon Hoff).
Defined.

(** Normal mode, STATE_ON found in the payload read as a C string: the
    message is an ON request, whatever else the payload holds. *)
Lemma message_with_on_token
    (cfg : config) (topic : string) (payload : list ascii) (s : state) :
  (List.length payload < MQTT_MAX_PACKET_SIZE cfg)%nat ->
  mqttCommandFailed s = false ->
  contains (bytes_of (STATE_ON cfg)) (until_nul payload) ->
  exists s',
    mqttCallback cfg topic payload s = Some s' /\
    bulbOn s' = true /\
    relayOn s' = true /\
    lastMqttCommandSent s' = 0 /\
    mqttCommandFailed s' = false.
Proof.
  intros Hfit Hflag Hon.
  rewrite mqttCallback_normal by assumption.
  destruct (strstr_finds _ _ Hon) as [k ->].
  eexists; split; [reflexivity|].
  rewrite setRelayOn_spec. unfold setBulbOn, digitalWrite.
  open_state s. subst.
  destruct bulb, relay; cbn; destruct (SHADOW_LED cfg); cbn; repeat split.
Qed.




(** A text payload (no NUL byte) is searched whole. *)
Lemma text_with_both_tokens_means_on
    (cfg : config) (topic : string) (payload : list ascii) (s : state) :
  (List.length payload < MQTT_MAX_PACKET_SIZE cfg)%nat ->
  Forall (fun c => c <> zero) payload ->
  mqttCommandFailed s = false ->
  contains (bytes_of (STATE_ON cfg)) payload ->
  exists s',
    mqttCallback cfg topic payload s = Some s' /\
    bulbOn s' = true /\
    relayOn s' = true /\
    lastMqttCommandSent s' = 0 /\
    mqttCommandFailed s' = false.
Proof.
  intros Hfit Htext Hflag Hon.
  apply message_with_on_token; try assumption.
  now rewrite until_nul_text.
Qed.

(** C9, at the input where the code departs from it: for a payload of
    MQTT_MAX_PACKET_SIZE bytes or more, msglen is MQTT_MAX_PACKET_SIZE, the
    copy fills the whole array, and the terminating NUL goes to index
    MQTT_MAX_PACKET_SIZE, one past the last cell. *)
Theorem terminator_written_past_buffer
    (cfg : config) (topic : string) (payload : list ascii) (s : state) :
  (MQTT_MAX_PACKET_SIZE cfg <= List.length payload)%nat ->
  let size := MQTT_MAX_PACKET_SIZE cfg in
  let msglen := msglen_of cfg (List.length payload) in
  msglen = size /\
  (exists message,
     memcpy (uninitialised size) payload msglen = Some message /\
     List.length message = size /\
     array_set message msglen zero = None) /\
  mqttCallback cfg topic payload s = None.
Proof.
  intros H. cbn zeta. rewrite msglen_of_clamped by exact H.
  split; [reflexivity|].
  split; [|now apply mqttCallback_overflow].
  unfold memcpy, array_set, uninitialised.
  rewrite repeat_length, Nat.leb_refl.
  replace (MQTT_MAX_PACKET_SIZE cfg <=? List.length payload)%nat with true
    by (symmetry; apply Nat.leb_le; lia).
  cbn [andb]. eexists; split; [reflexivity|].
  assert (Hlen : List.length
            (map Some (firstn (MQTT_MAX_PACKET_SIZE cfg) payload)
             ++ skipn (MQTT_MAX_PACKET_SIZE cfg)
                  (repeat None (MQTT_MAX_PACKET_SIZE cfg)))
          = MQTT_MAX_PACKET_SIZE cfg).
  { rewrite length_app, length_map, length_firstn, length_skipn, repeat_length.
    lia. }
  split; [exact Hlen|].
  now rewrite Hlen, Nat.ltb_irrefl.
Qed.

Lemma terminator_past_buffer_at_128 :
  (MQTT_MAX_PACKET_SIZE sample <= List.length (repeat "x"%char 128))%nat /\
  msglen_of sample (List.length (repeat "x"%char 128)) = 128%nat /\
  (exists message,
     memcpy (uninitialised 128) (repeat "x"%char 128)
       (msglen_of sample (List.length (repeat "x"%char 128))) = Some message /\
     List.length message = 128%nat /\
     array_set message (msglen_of sample (List.length (repeat "x"%char 128)))
       zero = None) /\
  mqttCallback sample "milight/state" (repeat "x"%char 128) (boot sample) = None.
Proof.
  assert (H : (MQTT_MAX_PACKET_SIZE sample
               <= List.length (repeat "x"%char 128))%nat)
    by (rewrite repeat_length; cbn; lia).
  split; [exact H|].
  exact (terminator_written_past_buffer sample "milight/state"
           (repeat "x"%char 128) (boot sample) H).
Defined.

(** *** The relay in normal mode *)

(** An inbound message in normal mode never switches the relay off. *)
Lemma mqttCallback_keeps_relay_on
    (cfg : config) (topic : string) (payload : list ascii) (s s' : state) :
  mqttCallback cfg topic payload s = Some s' ->
  mqttCommandFailed s = false ->
  relayOn s = true ->
  relayOn s' = true.
Proof.
  intros Hmsg Hflag Hrelay.
  destruct (Nat.lt_ge_cases (List.length payload) (MQTT_MAX_PACKET_SIZE cfg))
    as [Hfit|Hbig].
  - rewrite mqttCallback_normal in Hmsg by assumption.
    injection Hmsg as <-.
    destruct (strstr (until_nul payload) (bytes_of (STATE_ON cfg))).
    + apply setRelayOn_relayOn.
    + destruct (strstr (until_nul payload) (bytes_of (STATE_OFF cfg)));
        [|exact Hrelay].
      unfold setBulbOn, digitalWrite. open_state s.
      destruct bulb; cbn; destruct (SHADOW_LED cfg); exact Hrelay.
  - rewrite mqttCallback_overflow in Hmsg by assumption. discriminate.
Qed.

(** From normal mode the timeout check either changes nothing, or enters
    bypass mode and leaves the relay as the bulb state says. *)
Lemma manageCommandTimeout_cases (cfg : config) (s : state) :
  mqttCommandFailed s = false ->
  manageCommandTimeout cfg s = s \/
  (mqttCommandFailed (manageCommandTimeout cfg s) = true /\
   relayOn (manageCommandTimeout cfg s) = bulbOn (manageCommandTimeout cfg s)).
Proof.
  intros Hflag. unfold manageCommandTimeout.
  destruct (lastMqttCommandSent s =? 0); cbn [negb]; [now left|].
  destruct (u32 (millis s - lastMqttCommandSent s) >? COMMAND_TIMEOUT cfg).
  - right. rewrite !setRelayOn_spec. open_state s.
    destruct bulb, relay; split; reflexivity.
  - left. now rewrite Hflag.
Qed.

(** A step from normal mode with the relay on: the relay is still on
    afterwards, unless the step was the timeout check entering bypass mode
    with the bulb state off. *)
Lemma step_from_normal_mode (cfg : config) (s s' : state) :
  step cfg s s' ->
  mqttCommandFailed s = false ->
  relayOn s = true ->
  relayOn s' = true \/
  (mqttCommandFailed s' = true /\ bulbOn s' = false /\
   s' = manageCommandTimeout cfg s).
Proof.
  intros Hstep Hflag Hrelay.
  destruct Hstep as [dt s|topic payload s s' Hmsg|s|update read s].
  - left. exact Hrelay.
  - left. eapply mqttCallback_keeps_relay_on; eassumption.
  - destruct (manageCommandTimeout_cases cfg s Hflag) as [E|[Hf Hmirror]].
    + left. now rewrite E.
    + destruct (relayOn (manageCommandTimeout cfg s)) eqn:Hr.
      * now left.
      * right. repeat split; [exact Hf | now rewrite <- Hmirror].
  - left. now rewrite buttonLoop_relayOn.
Qed.

(** C8: every step of the engine (time passing, an inbound message, the
    timeout check, the button check) executed in normal mode, that is with
    the bypass flag false when it starts and when it ends, keeps a relay
    that is on, on.  No step sets the flag and clears it again, so the
    flag is then false all along the step. *)
Theorem relay_stays_on_in_normal_mode (cfg : config) (s s' : state) :
  step cfg s s' ->
  mqttCommandFailed s = false ->
  mqttCommandFailed s' = false ->
  relayOn s = true ->
  relayOn s' = true.
Proof.
  intros Hstep Hflag Hflag' Hrelay.
  destruct (step_from_normal_mode cfg s s' Hstep Hflag Hrelay)
    as [H|(Hf & _)]; [exact H | congruence].
Qed.

Lemma relay_stays_on_after_off_message :
  (step sample relit relit_off /\
   mqttCommandFailed relit = false /\
   mqttCommandFailed relit_off = false /\
   relayOn relit = true) /\
  relayOn relit_off = true.
Proof.
  assert (Hstep : step sample relit relit_off)
    by (apply (step_message sample "milight/state" (bytes_of "OFF"));
        reflexivity).
  split; [repeat split; exact Hstep|].
  exact (relay_stays_on_in_normal_mode sample relit relit_off
           Hstep eq_refl eq_refl eq_refl).
Defined.

(** Messages handled in a row, from normal mode: still normal mode, relay
    still on. *)
Lemma deliver_keeps_relay_on
    (cfg : config) (inbound : list (string * list ascii)) (s s' : state) :
  deliver cfg inbound s = Some s' ->
  mqttCommandFailed s = false ->
  relayOn s = true ->
  mqttCommandFailed s' = false /\ relayOn s' = true.
Proof.
  revert s. induction inbound as [|[topic payload] rest IH]; intros s; cbn.
  - intros [= <-]. now split.
  - destruct (mqttCallback cfg topic payload s) as [s1|] eqn:E; [|discriminate].
    intros H Hflag Hrelay. apply (IH s1 H).
    + eapply mqttCallback_clears_flag; eassumption.
    + eapply mqttCallback_keeps_relay_on; eassumption.
Qed.

(** *** Bypass mode *)

Lemma boot_settled (cfg : config) : settled (boot cfg).
Proof. intros H. discriminate H. Qed.

Lemma same_engine_settled (s s' : state) :
  same_engine s s' -> settled s -> settled s'.
Proof.
  unfold same_engine, settled. intros (-> & -> & -> & ->). exact (fun H => H).
Qed.

Lemma deliver_flag
    (cfg : config) (inbound : list (string * list ascii)) (s s' : state) :
  deliver cfg inbound s = Some s' ->
  (inbound = [] /\ s' = s) \/ mqttCommandFailed s' = false.
Proof.
  revert s. induction inbound as [|[topic payload] rest IH]; intros s; cbn.
  - intros [= <-]. now left.
  - destruct (mqttCallback cfg topic payload s) as [s1|] eqn:E; [|discriminate].
    intros H. right.
    destruct (IH _ H) as [[_ ->]|Hflag]; [|exact Hflag].
    eapply mqttCallback_clears_flag; eassumption.
Qed.

(** Without a broker connection mqttLoop leaves the engine alone. *)
Lemma mqttLoop_offline
    (cfg : config) (connect_ok connected_after : bool)
    (inbound : list (string * list ascii)) (s s' : state) :
  mqttLoop cfg false connect_ok connected_after inbound s = Some s' ->
  same_engine s s'.
Proof.
  unfold mqttLoop, mqttReconnect, same_engine. cbn [negb].
  open_state s.
  repeat match goal with
         | |- context [if ?b then _ else _] => destruct b; cbn
         | |- context [match ?x with Some _ => _ | None => _ end] =>
             destruct x; cbn
         end;
    intros [= <-]; cbn; repeat split.
Qed.

Lemma mqttLoop_settled
    (cfg : config) (connected connect_ok connected_after : bool)
    (inbound : list (string * list ascii)) (s s' : state) :
  settled s ->
  mqttLoop cfg connected connect_ok connected_after inbound s = Some s' ->
  settled s'.
Proof.
  intros Hs H. destruct connected.
  - unfold mqttLoop in H. cbn [negb] in H.
    destruct (deliver_flag _ _ _ _ H) as [[_ ->]|Hflag].
    + exact Hs.
    + intros Hf. congruence.
  - eapply same_engine_settled; [|exact Hs].
    eapply mqttLoop_offline; eassumption.
Qed.

(** Whenever the timeout check ends in bypass mode, the relay mirrors the
    bulb state: it has just been forced to, or it already did. *)
Lemma manageCommandTimeout_mirrors (cfg : config) (s : state) :
  settled s ->
  mqttCommandFailed (manageCommandTimeout cfg s) = true ->
  relayOn (manageCommandTimeout cfg s) = bulbOn (manageCommandTimeout cfg s).
Proof.
  unfold settled, manageCommandTimeout.
  destruct (lastMqttCommandSent s =? 0) eqn:Hsent; cbn [negb].
  - apply Z.eqb_eq in Hsent. auto.
  - intros _.
    destruct (u32 (millis s - lastMqttCommandSent s) >? COMMAND_TIMEOUT cfg).
    + intros _. rewrite !setRelayOn_spec. open_state s.
      destruct bulb, relay; reflexivity.
    + destruct (mqttCommandFailed s) eqn:Hflag; [|congruence].
      intros _. rewrite setRelayOn_spec. open_state s.
      destruct bulb, relay; reflexivity.
Qed.

(** C3 as stated fails: a tick taken in bypass mode in which the button
    toggles ends with the relay on and the bulb state off, still in bypass
    mode; the button check runs after the timeout check. *)
Lemma bypass_tick_with_button_edge :
  run sample [press 100; quiet 2000] (boot sample) = Some bypassed /\
  mqttCommandFailed bypassed = true /\
  tick sample (press 500) bypassed = Some toggled_in_bypass /\
  mqttCommandFailed toggled_in_bypass = true /\
  relayOn toggled_in_bypass = true /\
  bulbOn toggled_in_bypass = false.
Proof. vm_compute. repeat split. Qed.

(** C3, amended: a tick whose button check does not toggle and that ends
    in bypass mode ends with relayOn equal to bulbOn, from every state that
    is settled (in bypass mode with no command pending, the relay already
    mirrors the bulb state; so it is at boot, and so every tick leaves it
    when its command goes out at a nonzero millis()).  The timeout check
    forces the relay only while a command is pending, and the button check
    runs after it: a toggle is followed by the relay at the next tick. *)
Theorem bypass_tick_mirrors_bulb_state
    (cfg : config) (i : tick_input) (s s' : state) :
  settled s ->
  tick cfg i s = Some s' ->
  toggles cfg i = false ->
  mqttCommandFailed s' = true ->
  relayOn s' = bulbOn s'.
Proof.
  intros Hs Htick Hedge Hflag.
  unfold tick, loop in Htick.
  destruct (mqttLoop cfg (ti_connected i) (ti_connect_ok i)
              (ti_connected_after i) (ti_inbound i)
              (elapse (ti_elapsed i) s)) as [s1|] eqn:Hloop; [|discriminate].
  rewrite buttonLoop_idle in Htick by exact Hedge.
  injection Htick as <-.
  apply manageCommandTimeout_mirrors; [|exact Hflag].
  eapply mqttLoop_settled; [|exact Hloop].
  exact Hs.
Qed.

Lemma relay_follows_toggle_next_tick :
  (settled toggled_in_bypass /\
   tick sample (quiet 100) toggled_in_bypass = Some followed /\
   toggles sample (quiet 100) = false /\
   mqttCommandFailed followed = true) /\
  relayOn followed = bulbOn followed.
Proof.
  assert (Hs : settled toggled_in_bypass)
    by (intros _ H; vm_compute in H; discriminate H).
  split; [repeat split; exact Hs|].
  exact (bypass_tick_mirrors_bulb_state sample (quiet 100)
           toggled_in_bypass followed Hs eq_refl eq_refl eq_refl).
Defined.

(** Every tick keeps the state settled, provided a command sent by its
    button check goes out at a nonzero millis(). *)
Lemma tick_settled (cfg : config) (i : tick_input) (s s' : state) :
  settled s ->
  tick cfg i s = Some s' ->
  (toggles cfg i = true -> clock s' <> 0) ->
  settled s'.
Proof.
  intros Hs Htick Hclock.
  unfold tick, loop in Htick.
  destruct (mqttLoop cfg (ti_connected i) (ti_connect_ok i)
              (ti_connected_after i) (ti_inbound i)
              (elapse (ti_elapsed i) s)) as [s1|] eqn:Hloop; [|discriminate].
  injection Htick as Htick.
  assert (Hs1 : settled s1) by (eapply mqttLoop_settled; [|exact Hloop]; exact Hs).
  unfold toggles in Hclock.
  destruct (edge_toggles cfg (ti_update i) (ti_read i)) eqn:Hedge.
  - specialize (Hclock eq_refl). intros _ Hsent. exfalso. apply Hclock.
    rewrite <- Htick in *.
    rewrite buttonLoop_toggle in * by exact Hedge.
    unfold mqttSendCommand, setBulbOn, digitalWrite, millis in *.
    destruct (manageCommandTimeout cfg s1) as [bulb ? ? ? ? ? ? ? ? ? ? ?].
    cbn in *. destruct bulb; cbn in *; destruct (SHADOW_LED cfg); cbn in *;
      exact Hsent.
  - rewrite buttonLoop_idle in Htick by exact Hedge. subst s'.
    intros Hflag _. now apply manageCommandTimeout_mirrors.
Qed.

(** The relay over a whole pass of loop(): a tick that starts in normal
    mode with the relay on ends with the relay on, or in bypass mode. *)
Lemma relay_stays_on_over_tick (cfg : config) (i : tick_input) (s s' : state) :
  tick cfg i s = Some s' ->
  mqttCommandFailed s = false ->
  relayOn s = true ->
  relayOn s' = true \/ mqttCommandFailed s' = true.
Proof.
  intros Htick Hflag Hrelay.
  unfold tick, loop in Htick.
  destruct (mqttLoop cfg (ti_connected i) (ti_connect_ok i)
              (ti_connected_after i) (ti_inbound i)
              (elapse (ti_elapsed i) s)) as [s1|] eqn:Hloop; [|discriminate].
  injection Htick as <-.
  rewrite buttonLoop_relayOn, buttonLoop_mqttCommandFailed.
  assert (H1 : mqttCommandFailed s1 = false /\ relayOn s1 = true).
  { destruct (ti_connected i).
    - unfold mqttLoop in Hloop. cbn [negb] in Hloop.
      eapply deliver_keeps_relay_on; [exact Hloop| |]; assumption.
    - destruct (mqttLoop_offline _ _ _ _ _ _ Hloop) as (_ & Hr & Hf & _).
      cbn in Hr, Hf. split; congruence. }
  destruct H1 as [Hflag1 Hrelay1].
  destruct (manageCommandTimeout_cases cfg s1 Hflag1) as [E|[Hf _]].
  - left. now rewrite E.
  - now right.
Qed.

(** * Beyond the claims *)

(** ** Pin levels along the effects *)

Lemma pin_level_app (pin : Z) (trace added : list event) :
  pin_level pin (trace ++ added) =
    match pin_level pin added with
    | Some v => Some v
    | None => pin_level pin trace
    end.
Proof.
  induction trace as [|e trace IH]; cbn.
  - now destruct (pin_level pin added).
  - rewrite IH. now destruct (pin_level pin added).
Qed.

Lemma pin_level_no_write (pin : Z) (added : list event) :
  Forall (fun e => ~ is_pin_write e) added -> pin_level pin added = None.
Proof.
  induction 1 as [|e added He _ IH]; cbn; [reflexivity|].
  rewrite IH. destruct e; cbn in He; tauto.
Qed.

(** ** setBulbOn *)

Lemma setBulbOn_spec (cfg : config) (newState : bool) (s : state) :
  setBulbOn cfg newState s =
    if Bool.eqb (bulbOn s) newState then (false, s)
    else (true,
          mkState newState (relayOn s) (mqttCommandFailed s) (mqttAvailable s)
            (lastMqttCommandSent s) (lastMqttConnectAttempt s)
            (syncLost s) (pushLost s) (pushCount s) (mqttLost s) (clock s)
            (effects s ++ shadow_write cfg newState)).
Proof.
  unfold setBulbOn, shadow_write, digitalWrite, emit, set_bulbOn.
  destruct (Bool.eqb (bulbOn s) newState); cbn; [reflexivity|].
  destruct (SHADOW_LED cfg); cbn; [reflexivity|].
  now rewrite app_nil_r.
Qed.

Lemma setBulbOn_bulbOn (cfg : config) (newState : bool) (s : state) :
  bulbOn (snd (setBulbOn cfg newState s)) = newState.
Proof.
  rewrite setBulbOn_spec.
  destruct (Bool.eqb (bulbOn s) newState) eqn:E; [|reflexivity].
  now apply Bool.eqb_prop.
Qed.

(** X1: setBulbOn reports a change exactly when there is one, leaves the
    requested state behind, and asked again for the same state does
    nothing and says so. *)
Theorem setBulbOn_reports_change (cfg : config) (newState : bool) (s : state) :
  fst (setBulbOn cfg newState s) = negb (Bool.eqb (bulbOn s) newState) /\
  bulbOn (snd (setBulbOn cfg newState s)) = newState /\
  setBulbOn cfg newState (snd (setBulbOn cfg newState s)) =
    (false, snd (setBulbOn cfg newState s)).
Proof.
  rewrite !setBulbOn_spec.
  destruct (Bool.eqb (bulbOn s) newState) eqn:E; cbn.
  - rewrite ?E. repeat split. now apply Bool.eqb_prop.
  - rewrite ?Bool.eqb_reflx. repeat split.
Qed.

(** ** Invariants of a pass of loop() *)

(** What a handled message has done: one of the four outcomes. *)
Lemma mqttCallback_outcomes
    (cfg : config) (topic : string) (payload : list ascii) (s s' : state) :
  mqttCallback cfg topic payload s = Some s' ->
  (mqttCommandFailed s = true /\
   s' = set_mqttCommandFailed false
          (mqttSendCommand cfg (bulbOn s) (set_syncLost (syncLost s + 1) s))) \/
  (mqttCommandFailed s = false /\
   (s' = setRelayOn cfg true
           (set_lastMqttCommandSent 0 (snd (setBulbOn cfg true s))) \/
    s' = set_lastMqttCommandSent 0 (snd (setBulbOn cfg false s)) \/
    s' = s)).
Proof.
  intros H.
  destruct (Nat.lt_ge_cases (List.length payload) (MQTT_MAX_PACKET_SIZE cfg))
    as [Hfit|Hbig].
  - destruct (mqttCommandFailed s) eqn:Hflag.
    + rewrite mqttCallback_bypass in H by assumption.
      injection H as <-. now left.
    + rewrite mqttCallback_normal in H by assumption.
      injection H as <-. right. split; [reflexivity|].
      destruct (strstr (until_nul payload) (bytes_of (STATE_ON cfg)));
        [now left|].
      destruct (strstr (until_nul payload) (bytes_of (STATE_OFF cfg)));
        [right; now left | right; now right].
  - rewrite mqttCallback_overflow in H by assumption. discriminate.
Qed.

(** Without a broker connection mqttLoop writes no pin and leaves the
    engine, its counters and the clock alone. *)
Lemma mqttLoop_offline_frame
    (cfg : config) (connect_ok connected_after : bool)
    (inbound : list (string * list ascii)) (s s' : state) :
  mqttLoop cfg false connect_ok connected_after inbound s = Some s' ->
  same_engine s s' /\
  syncLost s' = syncLost s /\ pushLost s' = pushLost s /\
  pushCount s' = pushCount s /\ clock s' = clock s /\
  forall pin, pin_level pin (effects s') = pin_level pin (effects s).
Proof.
  unfold mqttLoop, mqttReconnect, same_engine. cbn [negb].
  open_state s.
  repeat match goal with
         | |- context [if ?b then _ else _] => destruct b; cbn
         | |- context [match ?x with Some _ => _ | None => _ end] =>
             destruct x; cbn
         end;
    intros [= <-]; cbn; repeat split; intros pin;
    rewrite ?pin_level_app; reflexivity.
Qed.

Section TickInvariant.

Variable cfg : config.
Variable I : state -> Prop.

Hypothesis I_elapse : forall dt s, I s -> I (elapse dt s).
Hypothesis I_available : forall s, I s -> I (set_mqttAvailable true s).
Hypothesis I_offline :
  forall connect_ok connected_after inbound s s',
    mqttLoop cfg false connect_ok connected_after inbound s = Some s' ->
    I s -> I s'.
Hypothesis I_message :
  forall topic payload s s',
    mqttCallback cfg topic payload s = Some s' -> I s -> I s'.
Hypothesis I_timeout : forall s, I s -> I (manageCommandTimeout cfg s).
Hypothesis I_button :
  forall update read s, I s -> I (buttonLoop cfg update read s).

Lemma deliver_invariant (inbound : list (string * list ascii)) (s s' : state) :
  deliver cfg inbound s = Some s' -> I s -> I s'.
Proof.
  revert s. induction inbound as [|[topic payload] rest IH]; intros s; cbn.
  - intros [= <-]. exact (fun H => H).
  - destruct (mqttCallback cfg topic payload s) as [s1|] eqn:E; [|discriminate].
    intros H Hs. apply (IH s1 H). eapply I_message; eassumption.
Qed.

(** A property kept by every part of loop() is kept by a tick. *)
Lemma tick_invariant (i : tick_input) (s s' : state) :
  tick cfg i s = Some s' -> I s -> I s'.
Proof.
  intros Htick Hs. unfold tick, loop in Htick.
  destruct (mqttLoop cfg (ti_connected i) (ti_connect_ok i)
              (ti_connected_after i) (ti_inbound i)
              (elapse (ti_elapsed i) s)) as [s1|] eqn:Hloop; [|discriminate].
  injection Htick as <-.
  apply I_button, I_timeout.
  destruct (ti_connected i).
  - unfold mqttLoop in Hloop. cbn [negb] in Hloop.
    eapply deliver_invariant; [exact Hloop|]. auto.
  - eapply I_offline; [exact Hloop|]. auto.
Qed.

Lemma run_invariant (inputs : list tick_input) (s s' : state) :
  run cfg inputs s = Some s' -> I s -> I s'.
Proof.
  revert s. induction inputs as [|i rest IH]; intros s; cbn.
  - intros [= <-]. exact (fun H => H).
  - destruct (tick cfg i s) as [s1|] eqn:E; [|discriminate].
    intros H Hs. apply (IH s1 H). eapply tick_invariant; eassumption.
Qed.

End TickInvariant.

(** *** The relay pin agrees with the recorded relay state *)

Lemma setRelayOn_to_bulb_state (cfg : config) (s : state) :
  relay_pin_shows cfg s -> relay_pin_shows cfg (setRelayOn cfg (bulbOn s) s).
Proof.
  intros H. rewrite setRelayOn_spec.
  destruct (Bool.eqb (relayOn s) (bulbOn s)); [exact H|].
  unfold relay_pin_shows. cbn. apply pin_level_last.
Qed.

Lemma shadow_write_other_pin (cfg : config) (on : bool) (pin : Z) :
  (forall led, SHADOW_LED cfg = Some led -> SHADOW_LED_PIN led <> pin) ->
  pin_level pin (shadow_write cfg on) = None.
Proof.
  intros H. unfold shadow_write.
  destruct (SHADOW_LED cfg) as [led|]; [|reflexivity].
  cbn. specialize (H led eq_refl). apply Z.eqb_neq in H. now rewrite H.
Qed.

Lemma setBulbOn_relay_pin (cfg : config) (newState : bool) (s : state) :
  pins_apart cfg ->
  relay_pin_shows cfg s ->
  relay_pin_shows cfg (snd (setBulbOn cfg newState s)).
Proof.
  intros Hpins H. rewrite setBulbOn_spec.
  destruct (Bool.eqb (bulbOn s) newState); [exact H|].
  unfold relay_pin_shows in *. cbn.
  now rewrite pin_level_app, shadow_write_other_pin.
Qed.

Lemma manageCommandTimeout_relay_pin (cfg : config) (s : state) :
  relay_pin_shows cfg s -> relay_pin_shows cfg (manageCommandTimeout cfg s).
Proof.
  intros H. unfold manageCommandTimeout.
  destruct (lastMqttCommandSent s =? 0); cbn [negb]; [exact H|].
  destruct (u32 (millis s - lastMqttCommandSent s) >? COMMAND_TIMEOUT cfg).
  - rewrite !setRelayOn_spec. unfold relay_pin_shows in *. open_state s.
    destruct bulb, relay; cbn in *; rewrite ?pin_level_last; auto.
  - destruct (mqttCommandFailed s); [|exact H].
    now apply setRelayOn_to_bulb_state.
Qed.

Lemma mqttCallback_relay_pin
    (cfg : config) (topic : string) (payload : list ascii) (s s' : state) :
  pins_apart cfg ->
  mqttCallback cfg topic payload s = Some s' ->
  relay_pin_shows cfg s -> relay_pin_shows cfg s'.
Proof.
  intros Hpins Hmsg H.
  destruct (mqttCallback_outcomes _ _ _ _ _ Hmsg)
    as [[_ ->]|[_ [->|[->| ->]]]].
  - unfold relay_pin_shows in *. cbn. now rewrite pin_level_app.
  - pose proof (setBulbOn_relay_pin cfg true s Hpins H) as H1.
    pose proof (setBulbOn_bulbOn cfg true s) as Hb.
    rewrite setRelayOn_spec.
    set (s1 := snd (setBulbOn cfg true s)) in *.
    unfold relay_pin_shows in *. cbn.
    destruct (Bool.eqb (relayOn s1) true) eqn:E; cbn; [exact H1|].
    rewrite Hb. apply pin_level_last.
  - exact (setBulbOn_relay_pin cfg false s Hpins H).
  - exact H.
Qed.

Lemma buttonLoop_relay_pin
    (cfg : config) (update : bool) (read : level) (s : state) :
  pins_apart cfg ->
  relay_pin_shows cfg s -> relay_pin_shows cfg (buttonLoop cfg update read s).
Proof.
  intros Hpins H.
  destruct (edge_toggles cfg update read) eqn:Hedge.
  - rewrite buttonLoop_toggle by exact Hedge. rewrite setBulbOn_spec.
    unfold relay_pin_shows in *. open_state s.
    destruct bulb; cbn;
      now rewrite !pin_level_app, shadow_write_other_pin.
  - now rewrite buttonLoop_idle.
Qed.

(** X2: at the end of every pass of loop() the relay pin is at the level of
    the recorded relay state, if it was at the start: the misdirected write
    of setRelayOn is made good before manageCommandTimeout returns. *)
Theorem relay_pin_agrees_after_tick
    (cfg : config) (i : tick_input) (s s' : state) :
  pins_apart cfg ->
  relay_pin_shows cfg s ->
  tick cfg i s = Some s' ->
  relay_pin_shows cfg s'.
Proof.
  intros Hpins Hs Htick.
  apply (tick_invariant cfg (relay_pin_shows cfg)) with (i := i) (s := s);
    try assumption.
  - intros dt s0 H. exact H.
  - intros s0 H. exact H.
  - intros ok after inbound s0 s1 Hloop H.
    destruct (mqttLoop_offline_frame _ _ _ _ _ _ Hloop)
      as ((_ & Hr & _) & _ & _ & _ & _ & Hpin).
    unfold relay_pin_shows in *. now rewrite Hpin, Hr.
  - intros topic payload s0 s1. now apply mqttCallback_relay_pin.
  - intros s0. apply manageCommandTimeout_relay_pin.
  - intros update read s0. now apply buttonLoop_relay_pin.
Qed.

Lemma relay_pin_agrees_after_discharge :
  (pins_apart sample /\
   relay_pin_shows sample relit /\
   tick sample (quiet 1600) relit =
     Some (mkState true true true true 0 0 0 1 2 0 7700
             [DigitalWrite 15 LOW; DigitalWrite 15 HIGH;
              Publish "milight/command" "OFF"; Publish "milight/command" "ON";
              DigitalWrite 15 HIGH; Delay 1000; DigitalWrite 15 HIGH])) /\
  relay_pin_shows sample
    (mkState true true true true 0 0 0 1 2 0 7700
       [DigitalWrite 15 LOW; DigitalWrite 15 HIGH;
        Publish "milight/command" "OFF"; Publish "milight/command" "ON";
        DigitalWrite 15 HIGH; Delay 1000; DigitalWrite 15 HIGH]).
Proof.
  assert (Hpins : pins_apart sample) by (intros led H; discriminate H).
  assert (Hs : relay_pin_shows sample relit) by reflexivity.
  split; [repeat split; assumption|].
  exact (relay_pin_agrees_after_tick sample (quiet 1600) relit _
           Hpins Hs eq_refl).
Defined.

(** *** The shadow LED agrees with the bulb state *)

Lemma led_shows_frame (cfg : config) (s s' : state) :
  pins_apart cfg ->
  bulbOn s' = bulbOn s ->
  (forall pin, pin <> RELAY_PIN cfg ->
     pin_level pin (effects s') = pin_level pin (effects s)) ->
  led_shows cfg s -> led_shows cfg s'.
Proof.
  intros Hpins Hb Hpin H led Hled.
  rewrite Hb, Hpin by now apply Hpins.
  now apply H.
Qed.

Lemma setRelayOn_frame (cfg : config) (newState : bool) (s : state) :
  bulbOn (setRelayOn cfg newState s) = bulbOn s /\
  forall pin, pin <> RELAY_PIN cfg ->
    pin_level pin (effects (setRelayOn cfg newState s)) =
      pin_level pin (effects s).
Proof.
  rewrite setRelayOn_spec.
  destruct (Bool.eqb (relayOn s) newState); cbn; split; try reflexivity.
  intros pin Hpin. rewrite pin_level_app. cbn.
  apply not_eq_sym, Z.eqb_neq in Hpin. now rewrite Hpin.
Qed.

Lemma manageCommandTimeout_frame (cfg : config) (s : state) :
  bulbOn (manageCommandTimeout cfg s) = bulbOn s /\
  forall pin, pin <> RELAY_PIN cfg ->
    pin_level pin (effects (manageCommandTimeout cfg s)) =
      pin_level pin (effects s).
Proof.
  unfold manageCommandTimeout.
  destruct (lastMqttCommandSent s =? 0); cbn [negb]; [now split|].
  destruct (u32 (millis s - lastMqttCommandSent s) >? COMMAND_TIMEOUT cfg).
  - rewrite !setRelayOn_spec. open_state s.
    destruct bulb, relay; cbn; split; try reflexivity;
      intros pin Hpin; apply not_eq_sym, Z.eqb_neq in Hpin;
      rewrite ?pin_level_app; cbn; now rewrite ?Hpin.
  - destruct (mqttCommandFailed s); [|now split].
    apply setRelayOn_frame.
Qed.

Lemma setBulbOn_led (cfg : config) (newState : bool) (s : state) :
  led_shows cfg s -> led_shows cfg (snd (setBulbOn cfg newState s)).
Proof.
  intros H. rewrite setBulbOn_spec.
  destruct (Bool.eqb (bulbOn s) newState); [exact H|].
  intros led Hled. unfold shadow_write. cbn. rewrite Hled.
  apply pin_level_last.
Qed.

Lemma mqttCallback_led
    (cfg : config) (topic : string) (payload : list ascii) (s s' : state) :
  pins_apart cfg ->
  mqttCallback cfg topic payload s = Some s' ->
  led_shows cfg s -> led_shows cfg s'.
Proof.
  intros Hpins Hmsg H.
  destruct (mqttCallback_outcomes _ _ _ _ _ Hmsg)
    as [[_ ->]|[_ [->|[->| ->]]]].
  - intros led Hled. cbn. rewrite pin_level_app. cbn. now apply H.
  - pose proof (setBulbOn_led cfg true s H) as H1.
    destruct (setRelayOn_frame cfg true
                (set_lastMqttCommandSent 0 (snd (setBulbOn cfg true s))))
      as [Hb Hpin].
    eapply led_shows_frame; [exact Hpins|exact Hb|exact Hpin|exact H1].
  - exact (setBulbOn_led cfg false s H).
  - exact H.
Qed.

Lemma buttonLoop_led
    (cfg : config) (update : bool) (read : level) (s : state) :
  led_shows cfg s -> led_shows cfg (buttonLoop cfg update read s).
Proof.
  intros H.
  destruct (edge_toggles cfg update read) eqn:Hedge.
  - rewrite buttonLoop_toggle by exact Hedge.
    pose proof (setBulbOn_led cfg (negb (bulbOn s))
                  (set_pushCount (pushCount s + 1) s) H) as H1.
    intros led Hled. specialize (H1 led Hled).
    unfold mqttSendCommand. cbn. rewrite pin_level_app. cbn. exact H1.
  - now rewrite buttonLoop_idle.
Qed.

(** X3: the shadow LED always shows the bulb state at the end of a pass of
    loop(), if it did at the start and has a pin of its own. *)
Theorem shadow_led_agrees_after_tick
    (cfg : config) (i : tick_input) (s s' : state) :
  pins_apart cfg ->
  led_shows cfg s ->
  tick cfg i s = Some s' ->
  led_shows cfg s'.
Proof.
  intros Hpins Hs Htick.
  apply (tick_invariant cfg (led_shows cfg)) with (i := i) (s := s);
    try assumption.
  - intros dt s0 H. exact H.
  - intros s0 H. exact H.
  - intros ok after inbound s0 s1 Hloop H.
    destruct (mqttLoop_offline_frame _ _ _ _ _ _ Hloop)
      as ((Hb & _) & _ & _ & _ & _ & Hpin).
    intros led Hled. rewrite Hpin, Hb. now apply H.
  - intros topic payload s0 s1. now apply mqttCallback_led.
  - intros s0 H. destruct (manageCommandTimeout_frame cfg s0) as [Hb Hpin].
    eapply led_shows_frame; eassumption.
  - intros update read s0. apply buttonLoop_led.
Qed.

Lemma shadow_led_agrees_after_press :
  (pins_apart sample_led /\
   led_shows sample_led (boot sample_led) /\
   tick sample_led (press 100) (boot sample_led) =
     Some (mkState true false false true 100 0 0 0 1 0 100
             [DigitalWrite 15 LOW; DigitalWrite 0 HIGH;
              DigitalWrite 0 LOW; Publish "milight/command" "ON"])) /\
  led_shows sample_led
    (mkState true false false true 100 0 0 0 1 0 100
       [DigitalWrite 15 LOW; DigitalWrite 0 HIGH;
        DigitalWrite 0 LOW; Publish "milight/command" "ON"]).
Proof.
  assert (Hpins : pins_apart sample_led)
    by (intros led H; injection H as <-; cbn; discriminate).
  assert (Hs : led_shows sample_led (boot sample_led))
    by (intros led H; injection H as <-; reflexivity).
  split; [repeat split; assumption|].
  exact (shadow_led_agrees_after_tick sample_led (press 100) (boot sample_led) _
           Hpins Hs eq_refl).
Defined.

(** *** Timeouts are accounted for by commands *)

Lemma boot_accounted (cfg : config) : accounted (boot cfg).
Proof. unfold accounted, pending. cbn. lia. Qed.

Lemma boot_pins (cfg : config) :
  pins_apart cfg -> relay_pin_shows cfg (boot cfg) /\ led_shows cfg (boot cfg).
Proof.
  intros Hpins. unfold relay_pin_shows, led_shows, boot. cbn.
  destruct (SHADOW_LED cfg) as [led|] eqn:Hled; cbn.
  - pose proof (Hpins led Hled) as Hneq. apply Z.eqb_neq in Hneq.
    rewrite Hneq, ?Z.eqb_refl. split; [reflexivity|].
    intros led' [= <-]. now rewrite Z.eqb_refl.
  - rewrite Z.eqb_refl. split; [reflexivity|]. intros led' H. discriminate H.
Qed.


Lemma pending_range (s : state) : 0 <= pending s <= 1.
Proof. unfold pending. destruct (lastMqttCommandSent s =? 0); lia. Qed.

Lemma manageCommandTimeout_accounted (cfg : config) (s : state) :
  accounted s -> accounted (manageCommandTimeout cfg s).
Proof.
  unfold accounted, pending, manageCommandTimeout.
  destruct (lastMqttCommandSent s =? 0) eqn:Hsent; cbn [negb].
  - now rewrite Hsent.
  - destruct (u32 (millis s - lastMqttCommandSent s) >? COMMAND_TIMEOUT cfg).
    + rewrite !setRelayOn_spec. open_state s.
      destruct bulb, relay; cbn; lia.
    + destruct (mqttCommandFailed s); [|now rewrite Hsent].
      rewrite setRelayOn_spec. open_state s.
      destruct (Bool.eqb relay bulb); cbn; rewrite Hsent; lia.
Qed.

Lemma mqttCallback_accounted
    (cfg : config) (topic : string) (payload : list ascii) (s s' : state) :
  mqttCallback cfg topic payload s = Some s' -> accounted s -> accounted s'.
Proof.
  intros Hmsg H. pose proof (pending_range s) as Hp.
  destruct (mqttCallback_outcomes _ _ _ _ _ Hmsg)
    as [[_ ->]|[_ [->|[->| ->]]]]; [| | |exact H].
  - unfold accounted in *.
    match goal with |- _ + pending ?x <= _ => pose proof (pending_range x) end.
    cbn. lia.
  - rewrite setRelayOn_spec, setBulbOn_spec. unfold accounted in *.
    open_state s.
    destruct bulb, relay; cbn; unfold pending in *; cbn in *; lia.
  - rewrite setBulbOn_spec. unfold accounted in *. open_state s.
    destruct bulb; cbn; unfold pending in *; cbn in *; lia.
Qed.

Lemma buttonLoop_accounted
    (cfg : config) (update : bool) (read : level) (s : state) :
  accounted s -> accounted (buttonLoop cfg update read s).
Proof.
  intros H. pose proof (pending_range s) as Hp.
  destruct (edge_toggles cfg update read) eqn:Hedge.
  - rewrite buttonLoop_toggle by exact Hedge. rewrite setBulbOn_spec.
    unfold accounted in *.
    match goal with |- _ + pending ?x <= _ => pose proof (pending_range x) end.
    open_state s. destruct bulb; cbn in *; lia.
  - now rewrite buttonLoop_idle.
Qed.

(** X4: pushLost never runs ahead of the commands sent: over every pass of
    loop(), the timeouts counted plus the command still pending stay within
    the button presses plus the recovery resends. *)
Theorem timeouts_accounted_after_tick
    (cfg : config) (i : tick_input) (s s' : state) :
  accounted s ->
  tick cfg i s = Some s' ->
  accounted s'.
Proof.
  intros Hs Htick.
  apply (tick_invariant cfg accounted) with (i := i) (s := s);
    try assumption.
  - intros dt s0 H. exact H.
  - intros s0 H. exact H.
  - intros ok after inbound s0 s1 Hloop H.
    destruct (mqttLoop_offline_frame _ _ _ _ _ _ Hloop)
      as ((_ & _ & _ & Hsent) & Hsync & Hlost & Hcount & _).
    unfold accounted, pending in *. now rewrite Hsent, Hsync, Hlost, Hcount.
  - intros topic payload s0 s1. apply mqttCallback_accounted.
  - intros s0. apply manageCommandTimeout_accounted.
  - intros update read s0. apply buttonLoop_accounted.
Qed.

Lemma timeouts_accounted_at_relit :
  (accounted relit /\
   tick sample (quiet 1600) relit =
     Some (mkState true true true true 0 0 0 1 2 0 7700
             [DigitalWrite 15 LOW; DigitalWrite 15 HIGH;
              Publish "milight/command" "OFF"; Publish "milight/command" "ON";
              DigitalWrite 15 HIGH; Delay 1000; DigitalWrite 15 HIGH])) /\
  accounted
    (mkState true true true true 0 0 0 1 2 0 7700
       [DigitalWrite 15 LOW; DigitalWrite 15 HIGH;
        Publish "milight/command" "OFF"; Publish "milight/command" "ON";
        DigitalWrite 15 HIGH; Delay 1000; DigitalWrite 15 HIGH]).
Proof.
  assert (Hs : accounted relit) by (vm_compute; discriminate).
  split; [split; [exact Hs | reflexivity]|].
  exact (timeouts_accounted_after_tick sample (quiet 1600) relit _ Hs eq_refl).
Defined.

(** ** Inbound messages in normal mode *)

(** X5: in normal mode a message (payload shorter than the buffer) in which
    strstr finds STATE_OFF and not STATE_ON switches the bulb state off,
    clears the pending command and leaves the relay, the flag and the
    counters alone; it publishes nothing, and writes the shadow LED only if
    the bulb state was on. *)
Theorem off_message_keeps_relay
    (cfg : config) (topic : string) (payload : list ascii) (s : state) :
  fits cfg payload ->
  mqttCommandFailed s = false ->
  ~ contains (bytes_of (STATE_ON cfg)) (until_nul payload) ->
  contains (bytes_of (STATE_OFF cfg)) (until_nul payload) ->
  mqttCallback cfg topic payload s =
    Some (mkState false (relayOn s) false (mqttAvailable s)
            0 (lastMqttConnectAttempt s)
            (syncLost s) (pushLost s) (pushCount s) (mqttLost s) (clock s)
            (effects s ++ if bulbOn s then shadow_write cfg false else [])).
Proof.
  intros Hfit Hflag Hon Hoff.
  rewrite mqttCallback_normal by assumption.
  rewrite (strstr_absent _ _ Hon).
  destruct (strstr_finds _ _ Hoff) as [k ->].
  rewrite setBulbOn_spec. open_state s. subst.
  destruct bulb; cbn; [reflexivity|]. now rewrite app_nil_r.
Qed.

Lemma off_message_at_relit :
  (fits sample (bytes_of "OFF") /\
   mqttCommandFailed relit = false /\
   ~ contains (bytes_of (STATE_ON sample)) (until_nul (bytes_of "OFF")) /\
   contains (bytes_of (STATE_OFF sample)) (until_nul (bytes_of "OFF"))) /\
  mqttCallback sample "milight/state" (bytes_of "OFF") relit = Some relit_off.
Proof.
  assert (Hfit : fits sample (bytes_of "OFF")) by (unfold fits; cbn; lia).
  assert (Hon : ~ contains (bytes_of (STATE_ON sample))
                    (until_nul (bytes_of "OFF"))).
  { intros H. apply strstr_finds in H as [k H]. discriminate H. }
  assert (Hoff : contains (bytes_of (STATE_OFF sample))
                   (until_nul (bytes_of "OFF")))
    by (exists [], []; reflexivity).
  split; [repeat split; assumption|].
  exact (off_message_keeps_relay sample "milight/state" (bytes_of "OFF") relit
           Hfit eq_refl Hon Hoff).
Defined.

Lemma shadow_write_is_pin_write (cfg : config) (on : bool) :
  Forall is_pin_write (shadow_write cfg on).
Proof.
  unfold shadow_write. destruct (SHADOW_LED cfg); repeat constructor.
Qed.

(** X6: in normal mode no message makes the callback publish, wait or
    count: whatever the payload, the effects only grow by pin writes, the
    four counters and the bypass flag stay, and the relay is never switched
    off. *)
Theorem normal_message_only_writes_pins
    (cfg : config) (topic : string) (payload : list ascii) (s s' : state) :
  mqttCommandFailed s = false ->
  mqttCallback cfg topic payload s = Some s' ->
  (exists added, effects s' = effects s ++ added /\ Forall is_pin_write added) /\
  mqttCommandFailed s' = false /\
  syncLost s' = syncLost s /\ pushLost s' = pushLost s /\
  pushCount s' = pushCount s /\ mqttLost s' = mqttLost s /\
  (relayOn s = true -> relayOn s' = true).
Proof.
  intros Hflag Hmsg.
  destruct (mqttCallback_outcomes _ _ _ _ _ Hmsg)
    as [[Hf _]|[_ [->|[->| ->]]]]; [congruence| | |]; clear Hmsg.
  - split.
    + exists ((if bulbOn s then [] else shadow_write cfg true)
              ++ (if relayOn s then []
                  else [DigitalWrite (RELAY_PIN cfg) (RELAY_ON cfg)])).
      split.
      * rewrite setRelayOn_spec, setBulbOn_spec. open_state s.
        destruct bulb, relay; cbn;
          rewrite ?app_nil_r, <- ?app_assoc; reflexivity.
      * apply Forall_app; split.
        -- destruct (bulbOn s); [constructor | apply shadow_write_is_pin_write].
        -- destruct (relayOn s); repeat constructor.
    + rewrite setRelayOn_spec, setBulbOn_spec. open_state s. subst.
      destruct bulb, relay; cbn; repeat split.
  - split.
    + exists (if bulbOn s then shadow_write cfg false else []).
      split.
      * rewrite setBulbOn_spec. open_state s.
        destruct bulb; cbn; rewrite ?app_nil_r; reflexivity.
      * destruct (bulbOn s); [apply shadow_write_is_pin_write | constructor].
    + rewrite setBulbOn_spec. open_state s. subst.
      destruct bulb; cbn; repeat split; auto.
  - split; [exists []; split; [now rewrite app_nil_r | constructor]|].
    repeat split; auto.
Qed.

Lemma normal_message_on_at_boot :
  (mqttCommandFailed (boot sample) = false /\
   mqttCallback sample "milight/state" (bytes_of "ON") (boot sample) =
     Some (mkState true true false false 0 0 0 0 0 0 0
             [DigitalWrite 15 LOW; DigitalWrite 15 HIGH])) /\
  (exists added,
     [DigitalWrite 15 LOW; DigitalWrite 15 HIGH]
       = effects (boot sample) ++ added /\ Forall is_pin_write added) /\
  false = false /\ 0 = 0 /\ 0 = 0 /\ 0 = 0 /\ 0 = 0 /\
  (relayOn (boot sample) = true -> true = true).
Proof.
  split; [split; reflexivity|].
  exact (normal_message_only_writes_pins sample "milight/state" (bytes_of "ON")
           (boot sample) _ eq_refl eq_refl).
Defined.

(** ** Commands and their timeout *)

(** X7: an answer cancels the timeout.  Once a message with a token has been
    handled in normal mode, the timeout check changes nothing, however much
    time has passed since the command was sent. *)
Theorem answered_command_never_times_out
    (cfg : config) (topic : string) (payload : list ascii) (s s' : state)
    (dt : Z) :
  mqttCommandFailed s = false ->
  contains (bytes_of (STATE_ON cfg)) (until_nul payload) \/
  contains (bytes_of (STATE_OFF cfg)) (until_nul payload) ->
  mqttCallback cfg topic payload s = Some s' ->
  manageCommandTimeout cfg (elapse dt s') = elapse dt s'.
Proof.
  intros Hflag Htoken Hmsg.
  assert (Hsent : lastMqttCommandSent s' = 0).
  { destruct (Nat.lt_ge_cases (List.length payload) (MQTT_MAX_PACKET_SIZE cfg))
      as [Hfit|Hbig].
    - rewrite mqttCallback_normal in Hmsg by assumption.
      injection Hmsg as <-.
      destruct (strstr (until_nul payload) (bytes_of (STATE_ON cfg))) eqn:Eon.
      + rewrite setRelayOn_spec.
        destruct (Bool.eqb _ _); reflexivity.
      + destruct Htoken as [H|H].
        * apply strstr_finds in H as [k H]. congruence.
        * apply strstr_finds in H as [k ->]. reflexivity.
    - rewrite mqttCallback_overflow in Hmsg by assumption. discriminate. }
  unfold manageCommandTimeout. cbn. now rewrite Hsent.
Qed.

Lemma answered_command_at_relit :
  (mqttCommandFailed relit = false /\
   (contains (bytes_of (STATE_ON sample)) (until_nul (bytes_of "OFF")) \/
    contains (bytes_of (STATE_OFF sample)) (until_nul (bytes_of "OFF"))) /\
   mqttCallback sample "milight/state" (bytes_of "OFF") relit = Some relit_off) /\
  manageCommandTimeout sample (elapse 60000 relit_off) = elapse 60000 relit_off.
Proof.
  assert (Htoken :
            contains (bytes_of (STATE_ON sample)) (until_nul (bytes_of "OFF")) \/
            contains (bytes_of (STATE_OFF sample)) (until_nul (bytes_of "OFF")))
    by (right; exists [], []; reflexivity).
  split; [repeat split; assumption|].
  exact (answered_command_never_times_out sample "milight/state"
           (bytes_of "OFF") relit relit_off 60000 eq_refl Htoken eq_refl).
Defined.

(** X8: zero is both a time and "no command pending".  A command sent by the
    button while millis() reads 0 is not tracked: the timeout check changes
    nothing afterwards, however long the answer is missing, so bypass mode
    is not entered for it. *)
Theorem command_sent_at_zero_is_not_tracked
    (cfg : config) (update : bool) (read : level) (s : state) (dt : Z) :
  edge_toggles cfg update read = true ->
  millis s = 0 ->
  let s1 := buttonLoop cfg update read s in
  effects s1 = effects s ++ shadow_write cfg (negb (bulbOn s))
                         ++ [command_for cfg (negb (bulbOn s))] /\
  lastMqttCommandSent s1 = 0 /\
  manageCommandTimeout cfg (elapse dt s1) = elapse dt s1.
Proof.
  intros Hedge Hzero. cbn zeta.
  rewrite buttonLoop_toggle by exact Hedge. rewrite setBulbOn_spec.
  unfold manageCommandTimeout, mqttSendCommand, command_for, millis in *.
  open_state s. subst.
  destruct bulb; cbn; rewrite <- ?app_assoc; repeat split.
Qed.

Lemma command_sent_at_zero_at_boot :
  (edge_toggles sample true LOW = true /\ millis (boot sample) = 0) /\
  effects (buttonLoop sample true LOW (boot sample)) =
    effects (boot sample) ++ shadow_write sample (negb (bulbOn (boot sample)))
      ++ [command_for sample (negb (bulbOn (boot sample)))] /\
  lastMqttCommandSent (buttonLoop sample true LOW (boot sample)) = 0 /\
  manageCommandTimeout sample (elapse 60000 (buttonLoop sample true LOW (boot sample)))
    = elapse 60000 (buttonLoop sample true LOW (boot sample)).
Proof.
  split; [split; reflexivity|].
  exact (command_sent_at_zero_is_not_tracked sample true LOW (boot sample) 60000
           eq_refl eq_refl).
Defined.





(** X10: two toggling button edges in a row give the bulb state back, count
    two presses and publish the two opposite commands in order; the relay
    is not touched. *)
Theorem two_edges_restore_bulb_state
    (cfg : config) (u1 u2 : bool) (r1 r2 : level) (s : state) :
  edge_toggles cfg u1 r1 = true ->
  edge_toggles cfg u2 r2 = true ->
  let s2 := buttonLoop cfg u2 r2 (buttonLoop cfg u1 r1 s) in
  bulbOn s2 = bulbOn s /\
  relayOn s2 = relayOn s /\
  pushCount s2 = pushCount s + 2 /\
  effects s2 = effects s
               ++ shadow_write cfg (negb (bulbOn s))
               ++ [command_for cfg (negb (bulbOn s))]
               ++ shadow_write cfg (bulbOn s)
               ++ [command_for cfg (bulbOn s)].
Proof.
  intros H1 H2. cbn zeta.
  rewrite (buttonLoop_toggle _ _ _ _ H2), (buttonLoop_toggle _ _ _ _ H1).
  rewrite !setBulbOn_spec. unfold mqttSendCommand, command_for.
  open_state s.
  destruct bulb; cbn; rewrite <- ?app_assoc; cbn;
    repeat split; try lia; now rewrite <- ?app_assoc.
Qed.

Lemma two_edges_at_relit :
  (edge_toggles sample true LOW = true /\
   edge_toggles sample true HIGH = true) /\
  let s2 := buttonLoop sample true HIGH (buttonLoop sample true LOW relit) in
  bulbOn s2 = bulbOn relit /\
  relayOn s2 = relayOn relit /\
  pushCount s2 = pushCount relit + 2 /\
  effects s2 = effects relit
               ++ shadow_write sample (negb (bulbOn relit))
               ++ [command_for sample (negb (bulbOn relit))]
               ++ shadow_write sample (bulbOn relit)
               ++ [command_for sample (bulbOn relit)].
Proof.
  split; [split; reflexivity|].
  exact (two_edges_restore_bulb_state sample true true LOW HIGH relit
           eq_refl eq_refl).
Defined.

(** X11: when the command timeout (COMMAND_TIMEOUT nonnegative, so that the
    comparison is the code's) fires, the relay pin ends at the level of the
    bulb state, and so does the recorded relay state: from then on the
    relay powers the lamp exactly when the bulb state is on. *)
Theorem timeout_leaves_pin_at_bulb_state (cfg : config) (s : state) :
  0 <= COMMAND_TIMEOUT cfg ->
  relay_pin_shows cfg s ->
  lastMqttCommandSent s <> 0 ->
  u32 (millis s - lastMqttCommandSent s) > COMMAND_TIMEOUT cfg ->
  let s' := manageCommandTimeout cfg s in
  mqttCommandFailed s' = true /\
  relayOn s' = bulbOn s /\
  pin_level (RELAY_PIN cfg) (effects s') = Some (relay_level cfg (bulbOn s)).
Proof.
  intros _ Hpin Hsent Hlate. cbn zeta.
  pose proof (manageCommandTimeout_relay_pin cfg s Hpin) as Hpin'.
  destruct (manageCommandTimeout_frame cfg s) as [Hb _].
  assert (Hf : mqttCommandFailed (manageCommandTimeout cfg s) = true).
  { unfold manageCommandTimeout, millis in *.
    apply Z.eqb_neq in Hsent. rewrite Hsent. cbn [negb].
    apply Z.gt_lt, Z.ltb_lt in Hlate. rewrite Z.gtb_ltb, Hlate.
    rewrite !setRelayOn_spec. open_state s.
    destruct bulb, relay; reflexivity. }
  assert (Hs : settled s).
  { intros _ H0. contradiction. }
  pose proof (manageCommandTimeout_mirrors cfg s Hs Hf) as Hm.
  unfold relay_pin_shows in Hpin'.
  repeat split; congruence.
Qed.

Lemma timeout_leaves_pin_at_relit :
  let s := elapse 1600 relit in
  (0 <= COMMAND_TIMEOUT sample /\
   relay_pin_shows sample s /\
   lastMqttCommandSent s <> 0 /\
   u32 (millis s - lastMqttCommandSent s) > COMMAND_TIMEOUT sample) /\
  mqttCommandFailed (manageCommandTimeout sample s) = true /\
  relayOn (manageCommandTimeout sample s) = bulbOn s /\
  pin_level (RELAY_PIN sample) (effects (manageCommandTimeout sample s))
    = Some (relay_level sample (bulbOn s)).
Proof.
  assert (H0 : relay_pin_shows sample (elapse 1600 relit)) by reflexivity.
  assert (H1 : lastMqttCommandSent (elapse 1600 relit) <> 0)
    by (vm_compute; discriminate).
  assert (H2 : u32 (millis (elapse 1600 relit)
                    - lastMqttCommandSent (elapse 1600 relit))
               > COMMAND_TIMEOUT sample) by reflexivity.
  assert (Ht : 0 <= COMMAND_TIMEOUT sample) by (cbn; lia).
  split; [repeat split; assumption|].
  exact (timeout_leaves_pin_at_bulb_state sample (elapse 1600 relit)
           Ht H0 H1 H2).
Defined.

(** ** Where a pass of loop() can go wrong *)

Lemma mqttCallback_runs
    (cfg : config) (topic : string) (payload : list ascii) (s : state) :
  fits cfg payload -> exists s', mqttCallback cfg topic payload s = Some s'.
Proof.
  intros Hfit. destruct (mqttCommandFailed s) eqn:Hflag.
  - rewrite mqttCallback_bypass by assumption. eauto.
  - rewrite mqttCallback_normal by assumption. eauto.
Qed.

Lemma deliver_fails_iff
    (cfg : config) (inbound : list (string * list ascii)) (s : state) :
  deliver cfg inbound s = None <->
  Exists (fun m => (MQTT_MAX_PACKET_SIZE cfg <= List.length (snd m))%nat) inbound.
Proof.
  revert s. induction inbound as [|[topic payload] rest IH]; intros s; cbn.
  - split; [discriminate | intros H; inversion H].
  - destruct (Nat.lt_ge_cases (List.length payload) (MQTT_MAX_PACKET_SIZE cfg))
      as [Hfit|Hbig].
    + destruct (mqttCallback_runs cfg topic payload s Hfit) as [s1 ->].
      rewrite IH. split.
      * intros H. now apply Exists_cons_tl.
      * intros H. inversion H as [? ? Hhd|? ? Htl]; subst; [cbn in Hhd; lia|].
        exact Htl.
    + rewrite mqttCallback_overflow by assumption.
      split; [intros _|reflexivity]. now apply Exists_cons_hd.
Qed.

(** X12: a pass of loop() goes wrong in exactly one way: the broker is
    connected and hands over a payload of MQTT_MAX_PACKET_SIZE bytes or
    more.  Every other pass runs to its end. *)
Theorem tick_fails_only_on_long_payload
    (cfg : config) (i : tick_input) (s : state) :
  tick cfg i s = None <->
  ti_connected i = true /\
  Exists (fun m => (MQTT_MAX_PACKET_SIZE cfg <= List.length (snd m))%nat)
    (ti_inbound i).
Proof.
  unfold tick, loop.
  destruct (ti_connected i) eqn:Hc.
  - unfold mqttLoop. cbn [negb].
    rewrite <- (deliver_fails_iff cfg (ti_inbound i)
                  (set_mqttAvailable true (elapse (ti_elapsed i) s))).
    destruct (deliver cfg (ti_inbound i) _); split;
      try discriminate; try tauto.
    intros [_ H]. discriminate H.
  - split; [|intros [H _]; discriminate H].
    destruct (mqttLoop cfg false (ti_connect_ok i)
                (ti_connected_after i) (ti_inbound i)
                (elapse (ti_elapsed i) s)) as [s1|] eqn:Hloop;
      [discriminate|].
    exfalso. unfold mqttLoop, mqttReconnect in Hloop.
    cbn [negb] in Hloop.
    repeat match type of Hloop with
           | context [if ?b then _ else _] => destruct b
           | context [match ?x with Some _ => _ | None => _ end] => destruct x
           end; discriminate Hloop.
Qed.

(** ** Broker connection *)

(** X13: a failed connection attempt is not repeated early.  When mqttLoop,
    without connection, has made its attempt and the client is still not
    connected, a pass up to 5000 ms later changes nothing at all: no
    connect, no publish, no counter. *)
Theorem failed_reconnect_waits_5_seconds
    (cfg : config) (connect_ok connect_ok' connected_after' : bool)
    (inbound inbound' : list (string * list ascii)) (s s1 : state) (d : Z) :
  u32 (millis s - lastMqttConnectAttempt s) > 5000 ->
  mqttLoop cfg false connect_ok false inbound s = Some s1 ->
  0 <= d <= 5000 ->
  In Connect (effects s1) /\
  lastMqttConnectAttempt s1 = millis s /\
  mqttLoop cfg false connect_ok' connected_after' inbound' (elapse d s1) =
    Some (elapse d s1).
Proof.
  intros Hdue Hloop Hd.
  apply Z.gt_lt, Z.ltb_lt in Hdue. rewrite <- Z.gtb_ltb in Hdue.
  assert (Hwait : (d >? 5000) = false)
    by (rewrite Z.gtb_ltb; apply Z.ltb_ge; lia).
  unfold mqttLoop, mqttReconnect, millis in *. cbn [negb] in *.
  destruct s as [? ? ? avail ? attempt ? ? ? ? clk eff]. cbn in *.
  destruct avail; cbn in *; rewrite Hdue in Hloop; cbn in *;
    destruct connect_ok, (MQTT_STATE cfg), (MQTT_UPDATE cfg); cbn in *;
    injection Hloop as <-; cbn;
    rewrite u32_elapsed by lia; rewrite Hwait;
    (split; [|split; reflexivity]);
    rewrite ?in_app_iff; cbn; tauto.
Qed.

Lemma failed_reconnect_at_6_seconds :
  let s := elapse 6000 (boot sample) in
  let s1 := mkState false false false false 0 6000 0 0 0 0 6000
              [DigitalWrite 15 LOW; Connect] in
  (u32 (millis s - lastMqttConnectAttempt s) > 5000 /\
   mqttLoop sample false false false [] s = Some s1 /\
   0 <= 3000 <= 5000) /\
  In Connect (effects s1) /\
  lastMqttConnectAttempt s1 = millis s /\
  mqttLoop sample false true true [] (elapse 3000 s1) = Some (elapse 3000 s1).
Proof.
  assert (Hd : 0 <= 3000 <= 5000) by lia.
  split; [repeat split; apply Hd|].
  exact (failed_reconnect_waits_5_seconds sample false true true [] []
           (elapse 6000 (boot sample)) _ 3000 eq_refl eq_refl Hd).
Defined.

Lemma manageCommandTimeout_broker_fields (cfg : config) (s : state) :
  mqttAvailable (manageCommandTimeout cfg s) = mqttAvailable s /\
  mqttLost (manageCommandTimeout cfg s) = mqttLost s.
Proof.
  unfold manageCommandTimeout.
  destruct (lastMqttCommandSent s =? 0); cbn [negb]; [now split|].
  destruct (u32 (millis s - lastMqttCommandSent s) >? COMMAND_TIMEOUT cfg).
  - rewrite !setRelayOn_spec. open_state s.
    destruct bulb, relay; split; reflexivity.
  - destruct (mqttCommandFailed s); [|now split].
    rewrite setRelayOn_spec. destruct (Bool.eqb _ _); now split.
Qed.

Lemma buttonLoop_broker_fields
    (cfg : config) (update : bool) (read : level) (s : state) :
  mqttAvailable (buttonLoop cfg update read s) = mqttAvailable s /\
  mqttLost (buttonLoop cfg update read s) = mqttLost s.
Proof.
  destruct (edge_toggles cfg update read) eqn:Hedge.
  - rewrite buttonLoop_toggle by exact Hedge. rewrite setBulbOn_spec.
    open_state s. destruct bulb; split; reflexivity.
  - rewrite buttonLoop_idle by exact Hedge. now split.
Qed.

(** A pass without connection whose reconnection does not succeed: the
    broker is marked unavailable, and the loss is counted if it is new. *)
Lemma offline_tick_counts_new_loss
    (cfg : config) (i : tick_input) (s s' : state) :
  ti_connected i = false ->
  ti_connected_after i = false ->
  tick cfg i s = Some s' ->
  mqttAvailable s' = false /\
  mqttLost s' = mqttLost s + (if mqttAvailable s then 1 else 0).
Proof.
  intros Hc Ha Htick. unfold tick, loop in Htick. rewrite Hc, Ha in Htick.
  destruct (mqttLoop cfg false (ti_connect_ok i) false (ti_inbound i)
              (elapse (ti_elapsed i) s)) as [s1|] eqn:Hloop; [|discriminate].
  injection Htick as <-.
  destruct (buttonLoop_broker_fields cfg (ti_update i) (ti_read i)
              (manageCommandTimeout cfg s1)) as [-> ->].
  destruct (manageCommandTimeout_broker_fields cfg s1) as [-> ->].
  unfold mqttLoop, mqttReconnect in Hloop. cbn [negb] in Hloop.
  destruct s as [? ? ? avail ? ? ? ? ? ? ? ?]. cbn in *.
  destruct avail; cbn in *;
    repeat match type of Hloop with
           | context [if ?b then _ else _] => destruct b; cbn in Hloop
           | context [match ?x with Some _ => _ | None => _ end] =>
               destruct x; cbn in Hloop
           end;
    injection Hloop as <-; cbn; split; reflexivity || lia.
Qed.

(** X14: one outage is counted once.  Over any number of passes of loop()
    without connection (each reconnection failing), mqttLost grows by one
    if the broker was available before and not at all otherwise, and the
    broker is marked unavailable. *)
Theorem outage_is_counted_once
    (cfg : config) (i : tick_input) (rest : list tick_input) (s s' : state) :
  Forall (fun j => ti_connected j = false /\ ti_connected_after j = false)
    (i :: rest) ->
  run cfg (i :: rest) s = Some s' ->
  mqttAvailable s' = false /\
  mqttLost s' = mqttLost s + (if mqttAvailable s then 1 else 0).
Proof.
  intros Hall Hrun. cbn in Hrun.
  destruct (tick cfg i s) as [s1|] eqn:Htick; [|discriminate].
  inversion Hall as [|? ? [Hc Ha] Hrest]; subst.
  destruct (offline_tick_counts_new_loss cfg i s s1 Hc Ha Htick) as [Hav Hlost].
  rewrite <- Hlost. clear Hlost Htick Hall Hc Ha s i.
  revert s1 Hav Hrun.
  induction rest as [|j rest IH]; intros s1 Hav Hrun; cbn in Hrun.
  - injection Hrun as <-. now split.
  - destruct (tick cfg j s1) as [s2|] eqn:Htick; [|discriminate].
    inversion Hrest as [|? ? [Hc Ha] Hrest']; subst.
    destruct (offline_tick_counts_new_loss cfg j s1 s2 Hc Ha Htick)
      as [Hav2 Hlost2].
    rewrite Hav in Hlost2.
    destruct (IH Hrest' s2 Hav2 Hrun) as [Hav' Hlost'].
    split; [exact Hav'|lia].
Qed.

Lemma outage_counted_once_over_three_passes :
  let s' := mkState false true false false 0 14100 0 0 2 1 14100
              [DigitalWrite 15 LOW; DigitalWrite 15 HIGH;
               Publish "milight/command" "OFF"; Publish "milight/command" "ON";
               Connect; Connect] in
  (Forall (fun j => ti_connected j = false /\ ti_connected_after j = false)
     [offline 3000; offline 3000; offline 3000] /\
   run sample [offline 3000; offline 3000; offline 3000] relit_off = Some s') /\
  mqttAvailable s' = false /\
  mqttLost s' = mqttLost relit_off + (if mqttAvailable relit_off then 1 else 0).
Proof.
  assert (Hall : Forall (fun j => ti_connected j = false
                                  /\ ti_connected_after j = false)
                   [offline 3000; offline 3000; offline 3000])
    by (repeat constructor).
  split; [split; [exact Hall | reflexivity]|].
  exact (outage_is_counted_once sample (offline 3000)
           [offline 3000; offline 3000] relit_off _ Hall eq_refl).
Defined.

(** ** Entering bypass mode *)

(** X15: bypass mode is entered in one way only (COMMAND_TIMEOUT being
    nonnegative, so that the comparison is the code's).  A step that finds the flag
    false and leaves it true is the timeout check, run with a command
    pending for more than COMMAND_TIMEOUT, and it counts one timeout and
    clears the pending command. *)
Theorem bypass_entered_only_by_timeout (cfg : config) (s s' : state) :
  0 <= COMMAND_TIMEOUT cfg ->
  step cfg s s' ->
  mqttCommandFailed s = false ->
  mqttCommandFailed s' = true ->
  s' = manageCommandTimeout cfg s /\
  lastMqttCommandSent s <> 0 /\
  u32 (millis s - lastMqttCommandSent s) > COMMAND_TIMEOUT cfg /\
  pushLost s' = pushLost s + 1 /\
  lastMqttCommandSent s' = 0.
Proof.
  intros _ Hstep Hflag Hflag'.
  destruct Hstep as [dt s|topic payload s s' Hmsg|s|update read s].
  - cbn in Hflag'. congruence.
  - apply mqttCallback_clears_flag in Hmsg. congruence.
  - split; [reflexivity|]. revert Hflag'. unfold manageCommandTimeout, millis.
    destruct (lastMqttCommandSent s =? 0) eqn:Hsent; cbn [negb];
      [congruence|].
    apply Z.eqb_neq in Hsent.
    destruct (u32 (clock s - lastMqttCommandSent s) >? COMMAND_TIMEOUT cfg)
      eqn:Hlate.
    + intros _. rewrite Z.gtb_ltb in Hlate. apply Z.ltb_lt, Z.lt_gt in Hlate.
      split; [exact Hsent|]. split; [exact Hlate|].
      rewrite !setRelayOn_spec. open_state s.
      destruct bulb, relay; split; reflexivity.
    + rewrite Hflag. congruence.
  - rewrite buttonLoop_mqttCommandFailed in Hflag'. congruence.
Qed.

Lemma bypass_entered_at_relit :
  let s := elapse 1600 relit in
  (0 <= COMMAND_TIMEOUT sample /\
   step sample s (manageCommandTimeout sample s) /\
   mqttCommandFailed s = false /\
   mqttCommandFailed (manageCommandTimeout sample s) = true) /\
  manageCommandTimeout sample s = manageCommandTimeout sample s /\
  lastMqttCommandSent s <> 0 /\
  u32 (millis s - lastMqttCommandSent s) > COMMAND_TIMEOUT sample /\
  pushLost (manageCommandTimeout sample s) = pushLost s + 1 /\
  lastMqttCommandSent (manageCommandTimeout sample s) = 0.
Proof.
  assert (Hstep : step sample (elapse 1600 relit)
                    (manageCommandTimeout sample (elapse 1600 relit)))
    by apply step_timeout.
  assert (Ht : 0 <= COMMAND_TIMEOUT sample) by (cbn; lia).
  split; [repeat split; assumption|].
  exact (bypass_entered_only_by_timeout sample (elapse 1600 relit) _
           Ht Hstep eq_refl eq_refl).
Defined.
